(** * moneybot: the fund engine and the market-history ingestion

    A shallow embedding of [moneybot/fund.py] and [moneybot/MarketHistory.py].

    - Python objects live in a store ([heap]); a value is an immutable atom
      or a reference, so aliasing between the adapter's market state and what
      the strategy is handed is visible in the model.
    - Effects are threaded through one state-and-exception monad ([Run]),
      which also records the calls made to the external collaborators.
    - Market data are IEEE binary64 numbers (primitive floats), as pandas
      and numpy have them; wall-clock readings are idealised as rationals. *)

From Stdlib Require Import Floats ZArith QArith Qround Qfield Lia Lqa.
From stdpp Require Import gmap strings list.

Set Default Proof Using "Type".

(* ===================================================================== *)
(** * Part I: definitions                                                 *)
(* ===================================================================== *)

(** ** Exceptions and results *)

Inductive exn :=
  | IndexError
  | KeyError (k : string)
  | ValueError (msg : string)
  | ZeroDivisionError
  | OverflowError
  | RecursionError
  | SystemError
  | ExternalError (who : string).

Inductive result (A : Type) :=
  | Ok (a : A)
  | Raise (e : exn).
Arguments Ok {A} a.
Arguments Raise {A} e.

Definition is_ok {A} (r : result A) : bool :=
  match r with Ok _ => true | Raise _ => false end.

(** ** The Python object store *)

Definition loc := positive.

Inductive atom :=
  | ANone
  | ABool (b : bool)
  | AInt (z : Z)
  | AFloat (f : float)
  | AStr (s : string).

(** A value is an immutable atom (shared freely, never copied) or a
    reference to a mutable object. *)
Inductive val :=
  | VAtom (a : atom)
  | VRef (l : loc).
Arguments VRef l%_positive.

(** Mutable objects: lists and dictionaries. *)
Inductive obj :=
  | OList (xs : list val)
  | ODict (kvs : list (string * val)).

Abbreviation heap := (gmap loc obj).

Fixpoint assoc {A} (k : string) (kvs : list (string * A)) : option A :=
  match kvs with
  | [] => None
  | (k', v) :: rest => if String.eqb k k' then Some v else assoc k rest
  end.

(** [d[k] = v]: replaces the binding in place, or appends a new one. *)
Fixpoint assoc_set {A} (k : string) (v : A) (kvs : list (string * A))
  : list (string * A) :=
  match kvs with
  | [] => [(k, v)]
  | (k', v') :: rest =>
      if String.eqb k k' then (k', v) :: rest
      else (k', v') :: assoc_set k v rest
  end.

Definition assoc_del {A} (k : string) (kvs : list (string * A))
  : list (string * A) :=
  filter (λ kv, negb (String.eqb k kv.1) = true) kvs.

Definition list_append (y : loc) (v : val) (h : heap) : heap :=
  alter (λ o, match o with OList xs => OList (xs ++ [v]) | _ => o end) y h.

Definition dict_setitem (y : loc) (k : string) (v : val) (h : heap) : heap :=
  alter (λ o, match o with ODict kvs => ODict (assoc_set k v kvs) | _ => o end) y h.

(** ** [copy.deepcopy]

    The copier keeps a memo from the identity of each object already copied
    to its copy, so shared and cyclic structure is copied once.  A list or a
    dictionary is copied by allocating an empty one, memoising it, and
    filling it item by item.

    Every level of nesting costs two frames of the interpreter's stack: the
    call of [deepcopy] itself, and the call of the copier it dispatches to
    ([_deepcopy_atomic], [_deepcopy_list], [_deepcopy_dict]), from which the
    items are copied by further calls of [deepcopy].  [frames] is the number
    of frames the stack can still take; a call that finds none left raises
    [RecursionError]. *)

Definition copy_st := (gmap loc loc * gmap loc obj)%type.

Definition copy_list_items (rec : val → copy_st → copy_st * result val)
    (y : loc) : list val → copy_st → copy_st * result unit :=
  fix go xs st :=
    match xs with
    | [] => (st, Ok tt)
    | a :: xs' =>
        match rec a st with
        | (st1, Ok a') => go xs' (st1.1, list_append y a' st1.2)
        | (st1, Raise e) => (st1, Raise e)
        end
    end.

Definition copy_dict_items (rec : val → copy_st → copy_st * result val)
    (y : loc) : list (string * val) → copy_st → copy_st * result unit :=
  fix go kvs st :=
    match kvs with
    | [] => (st, Ok tt)
    | (k, v) :: kvs' =>
        match rec v st with
        | (st1, Ok v') => go kvs' (st1.1, dict_setitem y k v' st1.2)
        | (st1, Raise e) => (st1, Raise e)
        end
    end.

Fixpoint deepcopy_memo (frames : nat) (x : val) (st : copy_st)
  : copy_st * result val :=
  match frames with
  | O => (st, Raise RecursionError)
  | S inner =>
      match x with
      | VAtom _ =>
          match inner with
          | O => (st, Raise RecursionError)
          | S _ => (st, Ok x)
          end
      | VRef l =>
          match st.1 !! l with
          | Some y => (st, Ok (VRef y))
          | None =>
              match st.2 !! l with
              | None => (st, Raise SystemError)
              | Some o =>
                  match inner with
                  | O => (st, Raise RecursionError)
                  | S below =>
                      let y := fresh (dom st.2) in
                      match o with
                      | OList xs =>
                          let st0 := (<[l := y]> st.1, <[y := OList []]> st.2) in
                          match copy_list_items (deepcopy_memo below) y xs st0 with
                          | (st1, Ok _) => (st1, Ok (VRef y))
                          | (st1, Raise e) => (st1, Raise e)
                          end
                      | ODict kvs =>
                          let st0 := (<[l := y]> st.1, <[y := ODict []]> st.2) in
                          match copy_dict_items (deepcopy_memo below) y kvs st0 with
                          | (st1, Ok _) => (st1, Ok (VRef y))
                          | (st1, Raise e) => (st1, Raise e)
                          end
                      end
                  end
              end
          end
      end
  end.

(** [deepcopy(x)]: a fresh memo for every top-level call. *)
Definition deepcopy (frames : nat) (x : val) (h : heap) : heap * result val :=
  let '(st, r) := deepcopy_memo frames x (∅, h) in (st.2, r).

(** ** What a strategy can do to the objects it is handed

    [propose_trades] is called with two references: the snapshot of the
    market state and the market history.  The mutations a strategy makes
    through one of them are assignments, deletions and appends at paths
    starting from it; what it stores is a constant, something it read
    through that reference, or a new container of its own. *)

Inductive selector :=
  | Key (k : string)
  | Idx (i : nat).

Abbreviation path := (list selector).

Inductive source :=
  | SConst (a : atom)
  | SGet (p : path)
  | SNewList
  | SNewDict.

Inductive mutation :=
  | SetItem (p : path) (k : string) (s : source)
  | DelItem (p : path) (k : string)
  | SetIndex (p : path) (i : nat) (s : source)
  | Append (p : path) (s : source)
  | Clear (p : path).

Definition select (h : heap) (v : val) (s : selector) : option val :=
  match v with
  | VAtom _ => None
  | VRef l =>
      match h !! l, s with
      | Some (ODict kvs), Key k => assoc k kvs
      | Some (OList xs), Idx i => xs !! i
      | _, _ => None
      end
  end.

Fixpoint resolve (h : heap) (v : val) (p : path) : option val :=
  match p with
  | [] => Some v
  | s :: p' =>
      match select h v s with
      | Some v' => resolve h v' p'
      | None => None
      end
  end.

Definition eval_source (h : heap) (root : val) (s : source)
  : option (val * heap) :=
  match s with
  | SConst a => Some (VAtom a, h)
  | SGet p => match resolve h root p with
              | Some v => Some (v, h)
              | None => None
              end
  | SNewList => let y := fresh (dom h) in Some (VRef y, <[y := OList []]> h)
  | SNewDict => let y := fresh (dom h) in Some (VRef y, <[y := ODict []]> h)
  end.

Definition target (h : heap) (root : val) (p : path) : option loc :=
  match resolve h root p with
  | Some (VRef l) => Some l
  | _ => None
  end.

(** One mutation; a statement that would raise (a path that does not
    resolve, an index out of range) leaves the store as it is. *)
Definition apply_mutation (root : val) (m : mutation) (h : heap) : heap :=
  match m with
  | SetItem p k s =>
      match eval_source h root s with
      | Some (v, h1) =>
          match target h1 root p with
          | Some l => dict_setitem l k v h1
          | None => h1
          end
      | None => h
      end
  | DelItem p k =>
      match target h root p with
      | Some l =>
          alter (λ o, match o with
                      | ODict kvs => ODict (assoc_del k kvs)
                      | _ => o
                      end) l h
      | None => h
      end
  | SetIndex p i s =>
      match eval_source h root s with
      | Some (v, h1) =>
          match target h1 root p with
          | Some l =>
              alter (λ o, match o with
                          | OList xs => OList (<[i := v]> xs)
                          | _ => o
                          end) l h1
          | None => h1
          end
      | None => h
      end
  | Append p s =>
      match eval_source h root s with
      | Some (v, h1) =>
          match target h1 root p with
          | Some l => list_append l v h1
          | None => h1
          end
      | None => h
      end
  | Clear p =>
      match target h root p with
      | Some l =>
          alter (λ o, match o with
                      | OList _ => OList []
                      | ODict _ => ODict []
                      end) l h
      | None => h
      end
  end.

Definition apply_mutations (root : val) (ms : list mutation) (h : heap) : heap :=
  foldl (λ h m, apply_mutation root m h) h ms.

(** The two arguments of [propose_trades]. *)
Inductive handle :=
  | Snapshot
  | History.

(** The writes of one call, in the order they are made, each through one of
    the two references. *)
Definition apply_writes (snapshot history : val)
    (ws : list (handle * mutation)) (h : heap) : heap :=
  foldl (λ h w,
           apply_mutation (match w.1 with
                           | Snapshot => snapshot
                           | History => history
                           end) w.2 h)
        h ws.

(* --------------------------------------------------------------------- *)
(** ** pandas and numpy: the fragment the repository uses                *)
(* --------------------------------------------------------------------- *)

Module pd.

(** A frame is stored by column; every column is as long as the index.
    Index entries are points in time (integers). *)
Record DataFrame := Frame {
  df_index : list Z;
  df_columns : list (string * list float);
}.

Record Series := MkSeries {
  s_index : list Z;
  s_values : list float;
}.

(** One row of a frame, as [iterrows] and [apply(axis=1)] hand it out:
    [name] is its index label. *)
Record Row := MkRow {
  name : Z;
  cells : list (string * float);
}.

(** [df[c]] *)
Definition column (df : DataFrame) (c : string) : result Series :=
  match assoc c (df_columns df) with
  | Some vs => Ok (MkSeries (df_index df) vs)
  | None => Raise (KeyError c)
  end.

(** [df[c] = s] *)
Definition set_column (c : string) (s : Series) (df : DataFrame) : DataFrame :=
  Frame (df_index df) (assoc_set c (s_values s) (df_columns df)).

Definition has_label (labels : list string) (c : string) : bool :=
  existsb (String.eqb c) labels.

(** [df.drop(labels, axis=1)]: a label that is not a column is a [KeyError]. *)
Definition drop (labels : list string) (df : DataFrame) : result DataFrame :=
  match List.find (λ c, negb (has_label (df_columns df).*1 c)) labels with
  | Some c => Raise (KeyError c)
  | None =>
      Ok (Frame (df_index df)
            (List.filter (λ kv, negb (has_label labels kv.1)) (df_columns df)))
  end.

(** [df.rename(columns={old: new})]: a missing [old] is ignored. *)
Definition rename (old new : string) (df : DataFrame) : DataFrame :=
  Frame (df_index df)
        ((λ kv : string * list float,
            (if String.eqb kv.1 old then new else kv.1, kv.2))
           <$> df_columns df).

(** [s1 / s2] for two series of one frame: element by element, as numpy
    divides (a zero divisor gives an infinity or a NaN, not an exception). *)
Definition series_div (s1 s2 : Series) : Series :=
  MkSeries (s_index s1) (zip_with PrimFloat.div (s_values s1) (s_values s2)).

Definition row_at (df : DataFrame) (i : nat) (t : Z) : Row :=
  MkRow t ((λ kv : string * list float, (kv.1, nth i kv.2 nan)) <$> df_columns df).

(** [df.iterrows()] *)
Definition iterrows (df : DataFrame) : list Row :=
  imap (row_at df) (df_index df).

(** [row[c]] *)
Definition cell (r : Row) (c : string) : result float :=
  match assoc c (cells r) with
  | Some v => Ok v
  | None => Raise (KeyError c)
  end.

Fixpoint mapM {A B} (f : A → result B) (xs : list A) : result (list B) :=
  match xs with
  | [] => Ok []
  | x :: xs' =>
      match f x with
      | Raise e => Raise e
      | Ok y =>
          match mapM f xs' with
          | Raise e => Raise e
          | Ok ys => Ok (y :: ys)
          end
      end
  end.

(** [pd.DataFrame(data, index=index)] for a dictionary of lists: a list of
    one value is repeated to the length of the index; any other length but
    that of the index is refused. *)
Definition fit_column (n : nat) (c : string * list float)
  : result (string * list float) :=
  if (length c.2 =? n)%nat then Ok c
  else
    match c.2 with
    | [v] => Ok (c.1, replicate n v)
    | _ => Raise (ValueError "Shape of passed values does not match the index")
    end.

Definition from_dict (data : list (string * list float)) (index : list Z)
  : result DataFrame :=
  match mapM (fit_column (length index)) data with
  | Raise e => Raise e
  | Ok columns => Ok (Frame index columns)
  end.

(** [df.apply(f, axis=1)] *)
Definition apply_rows (f : Row → result float) (df : DataFrame) : result Series :=
  match mapM f (iterrows df) with
  | Raise e => Raise e
  | Ok vs => Ok (MkSeries (df_index df) vs)
  end.

Fixpoint is_monotonic_increasing (idx : list Z) : bool :=
  match idx with
  | [] => true
  | t :: rest =>
      match rest with
      | [] => true
      | t' :: _ => (t <=? t')%Z && is_monotonic_increasing rest
      end
  end.

(** [index.searchsorted(where, side='right')] on a sorted index: the number
    of labels at or before [where]. *)
Definition searchsorted_right (idx : list Z) (where_ : Z) : nat :=
  length (List.filter (λ t, (t <=? where_)%Z) idx).

(** [while loc > 0 and isna(values[loc]): loc -= 1] *)
Fixpoint skip_na (values : list float) (loc : nat) : nat :=
  match loc with
  | O => O
  | S n => if is_nan (nth loc values nan) then skip_na values n else loc
  end.

(** [Series.asof(where)] for one label. *)
Definition asof (s : Series) (where_ : Z) : result float :=
  if negb (is_monotonic_increasing (s_index s))
  then Raise (ValueError "asof requires a sorted index")
  else
    match s_index s with
    | [] => Raise IndexError
    | start :: _ =>
        if (where_ <? start)%Z then Ok nan
        else
          let loc := searchsorted_right (s_index s) where_ in
          let loc := if (0 <? loc)%nat then (loc - 1)%nat else loc in
          Ok (nth (skip_na (s_values s) loc) (s_values s) nan)
    end.

(** [np.arange(b, e, stride)] on integers. *)
Definition arange (b e stride : Z) : list Z :=
  (λ i : nat, b + Z.of_nat i * stride)%Z
    <$> seq 0 (Z.to_nat (- ((- (e - b)) / stride))%Z).

(** Times and frequencies are 64-bit counts of nanoseconds. *)
Definition INT64_MIN : Z := -9223372036854775808.
Definition INT64_MAX : Z := 9223372036854775807.

Definition fits_int64 (z : Z) : bool :=
  (INT64_MIN <=? z)%Z && (z <=? INT64_MAX)%Z.

(** [pd.Timestamp(t)]: a time outside the 64-bit range is refused (the
    smallest 64-bit number stands for "not a time"). *)
Definition Timestamp (ns : Z) : result Z :=
  if (INT64_MIN <? ns)%Z && (ns <=? INT64_MAX)%Z then Ok ns
  else Raise (ValueError "Out of bounds nanosecond timestamp").

(** [pd.to_datetime(ns)] for an integer count of nanoseconds. *)
Definition to_datetime (ns : Z) : result Z :=
  if fits_int64 ns then Ok ns
  else Raise (ValueError "Out of bounds nanosecond timestamp").

(** [pd.date_range(start, end, freq=f'{seconds}S')] for a fixed frequency:
    pandas works on integer nanoseconds, [stride] being the frequency, which
    has to fit 64 bits, as has the bound [e] handed to [np.arange]. *)
Definition date_range (start_ns end_ns seconds : Z) : result (list Z) :=
  let stride := (seconds * 1000000000)%Z in
  if negb (fits_int64 stride)
  then Raise (ValueError "frequency out of bounds")
  else if (stride =? 0)%Z then Raise ZeroDivisionError
  else
    let b := start_ns in
    let e := (b + (end_ns - b) / stride * stride + stride / 2 + 1)%Z in
    if negb (fits_int64 e) then Raise OverflowError
    else Ok (arange b e stride).

End pd.

(** ** The world a fund runs in, and the monad of its effects *)

(** A point in time as [step] receives it: the live driver passes
    [datetime.now()] (seconds, idealised as a rational), the backtest driver
    a [pd.Timestamp] (integer nanoseconds since the epoch). *)
Inductive moment :=
  | LiveNow (secs : Q)
  | Stamp (ns : Z).

Record world := World {
  w_heap : gmap loc obj;
  w_clock : Q;
}.

(** Calls that leave the fund, in the order they are made; [EYield] is a
    value handed to the consumer of the backtest generator and [ESleep] a
    call of [time.sleep]. *)
Inductive event :=
  | EScrapeLatest
  | EGetMarketState (t : moment)
  | EProposeTrades (snapshot history : val)
  | EFilterAndExecute (trades : list val)
  | EEstimateTotalValue
  | ESleep (secs : Q)
  | EYield (usd : float).

Definition Run (A : Type) : Type := world → world * list event * result A.

Definition ret {A} (a : A) : Run A := λ w, (w, [], Ok a).

Definition bind {A B} (m : Run A) (k : A → Run B) : Run B :=
  λ w,
    match m w with
    | (w1, log1, Ok a) =>
        match k a w1 with
        | (w2, log2, r) => (w2, log1 ++ log2, r)
        end
    | (w1, log1, Raise e) => (w1, log1, Raise e)
    end.

#[global] Instance Run_ret : MRet Run := @ret.
#[global] Instance Run_bind : MBind Run := λ A B k m, bind m k.

Definition raise {A} (e : exn) : Run A := λ w, (w, [], Raise e).

(** A call to an external collaborator: logged, then run. *)
Definition invoke {A} (e : event) (op : world → world * result A) : Run A :=
  λ w, let '(w1, r) := op w in (w1, [e], r).

Definition emit (e : event) : Run unit := λ w, (w, [e], Ok tt).

(** An operation on the object store alone. *)
Definition on_heap {A} (f : gmap loc obj → gmap loc obj * result A) : Run A :=
  λ w, let '(h1, r) := f (w_heap w) in
       (World h1 (w_clock w), [], r).

(** [time.time()] and [time.sleep(d)].  The clock is idealised: its
    readings are rationals, and [sleep] returns exactly when the time asked
    for has passed. *)
Definition time : Run Q := λ w, (w, [], Ok (w_clock w)).

Definition sleep (d : Q) : Run unit :=
  if Qle_bool 0 d
  then λ w, (World (w_heap w) (w_clock w + d)%Q, [ESleep d], Ok tt)
  else raise (ValueError "sleep length must be non-negative").

(** Python's [%] on numbers: the result has the sign of the divisor. *)
Definition py_mod (x y : Q) : result Q :=
  if Qeq_bool y 0 then Raise ZeroDivisionError
  else Ok (x - y * inject_Z (Qfloor (x / y)))%Q.

(** ** The collaborators of a fund (interfaces, implemented elsewhere) *)

(** The interpreter: [sys.getrecursionlimit()], and the number of frames
    already on the stack where [step] makes its calls. *)
Class Runtime := {
  recursion_limit : nat;
  stack_depth : nat;
}.

Definition frames_left `{!Runtime} : nat := recursion_limit - stack_depth.

(** [MarketAdapter]: its state lives in the world.  [market_history] is the
    adapter's attribute of that name, an object of the adapter's, which
    [Fund.__init__] stores as [self.market_history]; [scrape_latest] is its
    method. *)
Class MarketAdapter := {
  market_history : val;
  get_market_state : moment → world → world * result val;
  filter_and_execute : list val → world → world * result unit;
  estimate_total_value_usd : world → world * result float;
  scrape_latest : world → world * result unit;
}.

(** What one call of [propose_trades] does: the mutations it performs
    through the two references it was handed, how long it ran, and what it
    returned. *)
Record decision := Decision {
  writes : list (handle * mutation);
  took : Q;
  proposed : result (list val);
}.

(** [propose_trades(market_state, market_history)] *)
Class Strategy := {
  trade_interval : Z;
  propose_trades : val → val → world → decision;
}.

(** ** [Fund] *)

Section fund.
Context `{!Runtime, !MarketAdapter, !Strategy}.

(** [self.strategy.propose_trades(copied_market_state, self.market_history)] *)
Definition consult (copied : val) : Run (list val) :=
  λ w,
    let d := propose_trades copied market_history w in
    (World (apply_writes copied market_history (writes d) (w_heap w))
           (w_clock w + took d)%Q,
     [EProposeTrades copied market_history],
     proposed d).

(** [copied_market_state = deepcopy(self.market_adapter.get_market_state(time))] *)
Definition snapshot (t : moment) : Run val :=
  market_state ← invoke (EGetMarketState t) (get_market_state t) ;
  on_heap (deepcopy frames_left market_state).

(** [if proposed_trades: self.market_adapter.filter_and_execute(proposed_trades)] *)
Definition execute (proposed_trades : list val) : Run unit :=
  match proposed_trades with
  | [] => mret tt
  | _ :: _ =>
      invoke (EFilterAndExecute proposed_trades)
             (filter_and_execute proposed_trades)
  end.

Definition step (t : moment) : Run float :=
  copied_market_state ← snapshot t ;
  proposed_trades ← consult copied_market_state ;
  execute proposed_trades ;;
  usd_value ← invoke EEstimateTotalValue estimate_total_value_usd ;
  mret usd_value.


(** The statements of a turn of [run_live] that come before the sleep is
    computed, named for the statements below. *)
Definition turn_work : Run float :=
  cur_time ← time ;
  invoke EScrapeLatest scrape_latest ;;
  step (LiveNow cur_time).

(** One turn of the [while True] loop of [run_live]; returns the argument
    it passed to [sleep]. *)
Definition live_iteration (start_time PERIOD : Q) : Run Q :=
  cur_time ← time ;
  invoke EScrapeLatest scrape_latest ;;
  usd_val ← step (LiveNow cur_time) ;
  now ← time ;
  match py_mod (now - start_time) PERIOD with
  | Raise e => raise e
  | Ok r =>
      let sleep_for := (PERIOD - r)%Q in
      sleep sleep_for ;;
      mret sleep_for
  end.

Fixpoint live_loop (turns : nat) (start_time PERIOD : Q) : Run (list Q) :=
  match turns with
  | O => mret []
  | S n =>
      d ← live_iteration start_time PERIOD ;
      ds ← live_loop n start_time PERIOD ;
      mret (d :: ds)
  end.

(** [run_live], observed for its first [turns] turns. *)
Definition run_live (turns : nat) : Run (list Q) :=
  start_time ← time ;
  live_loop turns start_time (inject_Z trade_interval).

Fixpoint backtest_over (dates : list Z) : Run unit :=
  match dates with
  | [] => mret tt
  | date :: rest =>
      val ← step (Stamp date) ;
      emit (EYield val) ;;
      backtest_over rest
  end.

(** [start_time] and [end_time] are the times their strings denote. *)
Definition begin_backtest (start_time end_time : Z) : Run unit :=
  match pd.Timestamp start_time with
  | Raise e => raise e
  | Ok start =>
      match pd.Timestamp end_time with
      | Raise e => raise e
      | Ok end_ =>
          match pd.date_range start end_ trade_interval with
          | Raise e => raise e
          | Ok dates => backtest_over dates
          end
      end
  end.

End fund.

(** The timestamps [step] was called with, read off the log. *)
Definition stepped_at (log : list event) : list moment :=
  omap (λ e, match e with EGetMarketState t => Some t | _ => None end) log.

(** The values the backtest generator yielded. *)
Definition yielded (log : list event) : list float :=
  omap (λ e, match e with EYield v => Some v | _ => None end) log.

Definition executed (log : list event) : list (list val) :=
  omap (λ e, match e with EFilterAndExecute ts => Some ts | _ => None end) log.

(* --------------------------------------------------------------------- *)
(** ** [MarketHistory.scrape_since_last_reading]                          *)
(* --------------------------------------------------------------------- *)

(** A point as it is written to the [scrapedChart] series. *)
Record Chart := MkChart {
  measurement : string;
  currencyPair : string;
  chart_time : Z;
  fields : list (string * float);
}.

(** The database behind [client], and what the run printed. *)
Record store := Store {
  points : list Chart;
  printed : list string;
}.

(** What the run reads from outside: the exchange, the market-cap site and
    the clock.  Every fetch can fail. *)
Class Upstream := {
  (** [requests.get(url).json()]: field name to a list of [time, value] *)
  historical : string → result (list (string * list (Z * float)));
  (** [polo.returnTicker()] *)
  returnTicker : result (list string);
  (** [polo.returnChartData(pair, period, start, end)] as
      [pd.DataFrame(_, dtype=float)] reads it *)
  returnChartData : string → Z → float → float → result pd.DataFrame;
  (** [datetime.fromtimestamp] (local time) *)
  fromtimestamp : float → Z;
  (** [time.mktime(parser.parse(_).timetuple())] *)
  mktime : Z → float;
  (** [time.time()] *)
  time_time : float;
}.

Definition Ingest (A : Type) : Type := store → store * result A.

#[global] Instance Ingest_ret : MRet Ingest := λ A a st, (st, Ok a).
#[global] Instance Ingest_bind : MBind Ingest :=
  λ A B k m st,
    match m st with
    | (st1, Ok a) => k a st1
    | (st1, Raise e) => (st1, Raise e)
    end.

Definition lift {A} (r : result A) : Ingest A := λ st, (st, r).

(** The database keeps one point per measurement, tag set and time: a
    point written under the key of a stored one is merged into it, field by
    field, the new values replacing the old. *)
Definition same_key (p q : Chart) : bool :=
  String.eqb (measurement p) (measurement q)
  && String.eqb (currencyPair p) (currencyPair q)
  && (chart_time p =? chart_time q)%Z.

Definition merge_fields (old new : list (string * float))
  : list (string * float) :=
  foldl (λ fs kv, assoc_set kv.1 kv.2 fs) old new.

Fixpoint upsert (p : Chart) (ps : list Chart) : list Chart :=
  match ps with
  | [] => [p]
  | q :: rest =>
      if same_key p q
      then MkChart (measurement q) (currencyPair q) (chart_time q)
                   (merge_fields (fields q) (fields p)) :: rest
      else q :: upsert p rest
  end.

(** [client.write_points(points)] *)
Definition write_points (cs : list Chart) : Ingest unit :=
  λ st, (Store (foldl (λ ps c, upsert c ps) (points st) cs) (printed st), Ok tt).

Definition print (line : string) : Ingest unit :=
  λ st, (Store (points st) (printed st ++ [line]), Ok tt).

(** [select * from scrapedChart order by time desc limit 1] *)
Definition query_latest : Ingest (list Chart) :=
  λ st,
    (st,
     Ok match List.filter (λ p, String.eqb (measurement p) "scrapedChart")
                          (points st) with
        | [] => []
        | p :: ps =>
            [foldl (λ best q,
                      if (chart_time best <? chart_time q)%Z then q else best)
                   p ps]
        end).

Section ingestion.
Context `{!Upstream}.

(** [YEAR = 60 * 60 * 24 * 365] and [YEAR_AGO = time.time() - YEAR], the
    default [start] of [historical_prices_of]. *)
Definition YEAR : float := 31536000%float.
Definition YEAR_AGO : float := (time_time - YEAR)%float.

(** [format_time]: [strftime('%Y-%m-%d %H:%M:%S')] drops what is below the
    second; the string is represented by the time it denotes. *)
Definition format_time (ts : Z) : Z := (ts - ts mod 1000000000)%Z.

(** [market_cap]: one column per field; the index is read off the first
    field, milliseconds scaled to nanoseconds. *)
Definition market_cap (hist_ticker : list (string * list (Z * float)))
  : result pd.DataFrame :=
  let first := match hist_ticker with
               | [] => []
               | (_, vals) :: _ => vals
               end in
  match pd.mapM (λ t : Z * float, pd.to_datetime (t.1 * 1000000)) first with
  | Raise e => Raise e
  | Ok ts =>
      let r := (λ kv : string * list (Z * float), (kv.1, snd <$> kv.2))
                 <$> hist_ticker in
      pd.from_dict r ts
  end.

(** [coin_history = compose(market_cap, historical)] *)
Definition coin_history (ticker : string) : result pd.DataFrame :=
  match historical ticker with
  | Raise e => Raise e
  | Ok j => market_cap j
  end.

Definition scraped_chart (currency_pair : string) (row : pd.Row) : Chart :=
  MkChart "scrapedChart" currency_pair (format_time (pd.name row)) (pd.cells row).

Definition contemporary_usd_price (btc_price_hist : pd.DataFrame) (row : pd.Row)
  : result float :=
  match pd.column btc_price_hist "price_usd" with
  | Raise e => Raise e
  | Ok prices =>
      match pd.asof prices (pd.name row) with
      | Raise e => Raise e
      | Ok contemporary_btc_price =>
          match pd.cell row "weightedAverage" with
          | Raise e => Raise e
          | Ok w => Ok (w * contemporary_btc_price)%float
          end
      end
  end.

(** The test in the loop of [historical_prices_of]; a missing field is a
    [KeyError]. *)
Definition is_sentinel (chart : Chart) : result bool :=
  match assoc "volume" (fields chart) with
  | None => Raise (KeyError "volume")
  | Some v =>
      if PrimFloat.eqb v 0 then
        match assoc "weightedAverage" (fields chart) with
        | None => Raise (KeyError "weightedAverage")
        | Some w => Ok (PrimFloat.eqb w 0)
        end
      else Ok false
  end.

Fixpoint emit_charts (pair : string) (rows : list pd.Row) : result (list Chart) :=
  match rows with
  | [] => Ok []
  | row :: rest =>
      let chart := scraped_chart pair row in
      match is_sentinel chart with
      | Raise e => Raise e
      | Ok skip =>
          match emit_charts pair rest with
          | Raise e => Raise e
          | Ok cs => Ok (if skip then cs else chart :: cs)
          end
      end
  end.

(** [historical_prices_of]: everything the generator yields.  The caller
    in this module passes [period], [start] and [end] itself ([start]
    defaults to [YEAR_AGO], which it never relies on). *)
Definition historical_prices_of (btc_price_hist : pd.DataFrame)
    (pair : string) (period : Z) (start end_ : float)
  : result (list Chart) :=
  match returnChartData pair period start end_ with
  | Raise e => Raise e
  | Ok ts_df =>
      match pd.column ts_df "date" with
      | Raise e => Raise e
      | Ok dates =>
          let ts_df := pd.Frame (fromtimestamp <$> pd.s_values dates)
                             (pd.df_columns ts_df) in
          match pd.drop ["date"] ts_df with
          | Raise e => Raise e
          | Ok ts_df =>
              match pd.apply_rows (contemporary_usd_price btc_price_hist) ts_df with
              | Raise e => Raise e
              | Ok usd => emit_charts pair (pd.iterrows (pd.set_column "price_usd" usd ts_df))
              end
          end
      end
  end.

(** [marshall]: the assignment of [volume] is made on the frame it is
    passed, which nothing reads afterwards. *)
Definition marshall (hist_df : pd.DataFrame) (key : string) : result pd.DataFrame :=
  match pd.column hist_df "price_usd" with
  | Raise e => Raise e
  | Ok price_usd =>
      match pd.column hist_df "price_btc" with
      | Raise e => Raise e
      | Ok price_btc =>
          let btc_to_usd := pd.series_div price_usd price_btc in
          match pd.column hist_df "volume_usd" with
          | Raise e => Raise e
          | Ok volume_usd =>
              let hist_df :=
                pd.set_column "volume" (pd.series_div volume_usd btc_to_usd) hist_df in
              match pd.drop ["market_cap_by_available_supply"; "volume_usd"] hist_df with
              | Raise e => Raise e
              | Ok hist_df => Ok (pd.rename key "weightedAverage" hist_df)
              end
          end
      end
  end.

(** The body of [for market in polo.returnTicker()]. *)
Fixpoint scrape_markets (btc_price_hist : pd.DataFrame) (latest_fetch_unix : float)
    (markets : list string) : Ingest unit :=
  match markets with
  | [] => mret tt
  | market :: rest =>
      generator ← lift (historical_prices_of btc_price_hist market 900
                          latest_fetch_unix time_time) ;
      write_points generator ;;
      print ("scraped " +:+ market) ;;
      scrape_markets btc_price_hist latest_fetch_unix rest
  end.

Definition scrape_since_last_reading : Ingest unit :=
  btc_price_hist ← lift (coin_history "bitcoin") ;
  latest_result ← query_latest ;
  latest_fetch_time ←
    match latest_result with
    | [] => lift (Raise IndexError)
    | p :: _ => mret (chart_time p)
    end ;
  let latest_fetch_unix := mktime latest_fetch_time in
  markets ← lift returnTicker ;
  scrape_markets btc_price_hist latest_fetch_unix markets ;;
  btc_rows ← lift (marshall btc_price_hist "price_usd") ;
  write_points (scraped_chart "USD_BTC" <$> pd.iterrows btc_rows) ;;
  print "scraped USD_BTC".

End ingestion.

(* --------------------------------------------------------------------- *)
(** ** Concrete collaborators, to run the model on                        *)
(* --------------------------------------------------------------------- *)

Module demo.

(** The adapter's objects: its market state (1) with the balances (2)
    and the chart data (3, 4), and its market history (5). *)
Definition adapter_heap : gmap loc obj :=
  <[1%positive := ODict [("balances", VRef 2); ("chart_data", VRef 3);
                         ("fiat", VAtom (AStr "USD"))]]>
  (<[2%positive := ODict [("BTC", VAtom (AFloat 1.5));
                          ("ETH", VAtom (AFloat 10))]]>
  (<[3%positive := ODict [("BTC_ETH", VRef 4)]]>
  (<[4%positive := ODict [("weightedAverage", VAtom (AFloat 0.0625))]]>
  (<[5%positive := ODict [("client", VAtom (AStr "influxdb://localhost"))]]>
   ∅)))).

Definition balance_of (w : world) (coin : string) : result float :=
  match w_heap w !! 2%positive with
  | Some (ODict kvs) =>
      match assoc coin kvs with
      | Some (VAtom (AFloat f)) => Ok f
      | _ => Raise (KeyError coin)
      end
  | _ => Raise (KeyError "balances")
  end.

#[export] Instance runtime : Runtime :=
  {| recursion_limit := 1000; stack_depth := 12 |}.

(** A backtest-like adapter: a snapshot request takes two seconds and
    returns the live market state; executing trades moves half a coin. *)
#[export] Instance adapter : MarketAdapter := {|
  market_history := VRef 5;
  get_market_state _ w :=
    (World (w_heap w) (w_clock w + 2)%Q, Ok (VRef 1));
  filter_and_execute _ w :=
    (World (dict_setitem 2%positive "BTC" (VAtom (AFloat 1)) (w_heap w))
           (w_clock w + 1)%Q, Ok tt);
  estimate_total_value_usd w :=
    (w, match balance_of w "BTC" with
        | Ok f => Ok (f * 2500)%float
        | Raise e => Raise e
        end);
  scrape_latest w := (World (w_heap w) (w_clock w + 2)%Q, Ok tt);
|}.

(** A strategy that tampers with everything it can reach from the
    snapshot it was handed, and proposes nothing. *)
Definition meddler : Strategy := {|
  trade_interval := 60;
  propose_trades _ _ _ :=
    Decision [(Snapshot, SetItem [Key "balances"] "BTC" (SConst (AFloat 1000000)));
              (Snapshot, DelItem [Key "balances"] "ETH");
              (Snapshot, SetItem [] "chart_data" SNewDict);
              (Snapshot, SetItem [Key "chart_data"] "self" (SGet []));
              (Snapshot, Clear [])]
             1 (Ok []);
|}.


(** A strategy that proposes one trade, once an hour. *)
Definition trader : Strategy := {|
  trade_interval := 3600;
  propose_trades _ _ _ :=
    Decision [] 1 (Ok [VAtom (AStr "sell 0.5 BTC")]);
|}.

Definition world0 : world := World adapter_heap 1000.

End demo.

Module feed.

(** The integer part of a finite float. *)
Definition float_floor (f : float) : Z :=
  match Prim2SF f with
  | S754_finite s m e =>
      let v := if (0 <=? e)%Z then (Z.pos m * 2 ^ e)%Z
               else (Z.pos m / 2 ^ (- e))%Z in
      if s then (- v)%Z else v
  | _ => 0%Z
  end.

(** The market-cap history of the reference asset: two samples, fifteen
    minutes apart, times in milliseconds. *)
Definition bitcoin_json : list (string * list (Z * float)) :=
  [("market_cap_by_available_supply",
    [(1500000000000%Z, 40000000000%float); (1500000900000%Z, 41000000000%float)]);
   ("price_btc", [(1500000000000%Z, 1%float); (1500000900000%Z, 1%float)]);
   ("price_usd", [(1500000000000%Z, 2500%float); (1500000900000%Z, 2600%float)]);
   ("volume_usd",
    [(1500000000000%Z, 1000000000%float); (1500000900000%Z, 1300000000%float)])].

Definition reference : pd.DataFrame :=
  pd.Frame [1500000000000000000; 1500000900000000000]%Z
    [("market_cap_by_available_supply", [40000000000; 41000000000]%float);
     ("price_btc", [1; 1]%float);
     ("price_usd", [2500; 2600]%float);
     ("volume_usd", [1000000000; 1300000000]%float)].

(** Three candles of a pair; the second is the all-zero reading the
    exchange returns when nothing traded. *)
Definition candles : pd.DataFrame :=
  pd.Frame [0; 1; 2]%Z
    [("close", [0.0625; 0; 0.125]%float);
     ("date", [1500000000; 1500000450; 1500000900]%float);
     ("volume", [12; 0; 7.5]%float);
     ("weightedAverage", [0.0625; 0; 0.125]%float)].

(** A host on UTC, the exchange listing two pairs. *)
#[export] Instance healthy : Upstream := {|
  historical _ := Ok bitcoin_json;
  returnTicker := Ok ["BTC_ETH"; "BTC_XMR"];
  returnChartData _ _ _ _ := Ok candles;
  fromtimestamp f := (float_floor f * 1000000000)%Z;
  mktime t := PrimFloat.of_uint63 (Uint63.of_Z (t / 1000000000));
  time_time := 1500001800%float;
|}.

(** The same exchange, read on a host whose zone is an hour ahead of UTC. *)
Definition eastern : Upstream := {|
  historical _ := Ok bitcoin_json;
  returnTicker := Ok ["BTC_ETH"; "BTC_XMR"];
  returnChartData _ _ _ _ := Ok candles;
  fromtimestamp f := ((float_floor f + 3600) * 1000000000)%Z;
  mktime t := PrimFloat.of_uint63 (Uint63.of_Z (t / 1000000000 - 3600));
  time_time := 1500001800%float;
|}.

(** The same, but the fetch of the first pair fails. *)
Definition flaky : Upstream := {|
  historical _ := Ok bitcoin_json;
  returnTicker := Ok ["BTC_ETH"; "BTC_XMR"];
  returnChartData pair _ _ _ :=
    if String.eqb pair "BTC_ETH" then Raise (ExternalError "poloniex")
    else Ok candles;
  fromtimestamp f := (float_floor f * 1000000000)%Z;
  mktime t := PrimFloat.of_uint63 (Uint63.of_Z (t / 1000000000));
  time_time := 1500001800%float;
|}.

(** A store that already holds one reading, and an empty one. *)
Definition warm : store :=
  Store [MkChart "scrapedChart" "BTC_ETH" 1499999100000000000
           [("volume", 3%float); ("weightedAverage", 0.0625%float);
            ("price_usd", 156.25%float)]]
        [].

Definition cold : store := Store [] [].

End feed.

(* --------------------------------------------------------------------- *)
(** ** Vocabulary of the statements                                       *)
(* --------------------------------------------------------------------- *)

(** A value that does not point into the set [D] of locations. *)
Definition val_fresh (D : gset loc) (v : val) : Prop :=
  match v with
  | VAtom _ => True
  | VRef l => l ∉ D
  end.

Definition obj_fresh (D : gset loc) (o : obj) : Prop :=
  match o with
  | OList xs => Forall (val_fresh D) xs
  | ODict kvs => Forall (λ kv, val_fresh D kv.2) kvs
  end.

(** [h] keeps every object of [h0] as it was, and whatever [h] holds beyond
    [h0] never points back into [h0]. *)
Record extends (h0 h : gmap loc obj) : Prop := Extends {
  ext_old : ∀ l o, h0 !! l = Some o → h !! l = Some o;
  ext_new : ∀ l o, l ∉ dom h0 → h !! l = Some o → obj_fresh (dom h0) o;
}.

Definition copy_inv (h0 : gmap loc obj) (st : copy_st) : Prop :=
  extends h0 st.2 ∧ ∀ l y, st.1 !! l = Some y → y ∉ dom h0.

(** The objects at [A] are beyond the reach of [history]: it is not one of
    them, and no object outside [A] refers to one of them. *)
Definition beyond_reach (A : gset loc) (h : gmap loc obj) (history : val) : Prop :=
  val_fresh A history ∧
  ∀ l o, l ∉ A → h !! l = Some o → obj_fresh A o.

(** The objects of [h] at [A]. *)
Definition restrict (A : gset loc) (h : gmap loc obj) : gmap loc obj :=
  filter (λ lo, lo.1 ∈ A) h.


(** Python's [x % y] on rationals, for a non-zero [y]. *)
Definition Qmod (x y : Q) : Q := (x - y * inject_Z (Qfloor (x / y)))%Q.



(** The sentinel of the specification: a reading whose volume and weighted
    average are both zero. *)
Definition no_trading (fs : list (string * float)) : bool :=
  match assoc "volume" fs, assoc "weightedAverage" fs with
  | Some v, Some w => PrimFloat.eqb v 0 && PrimFloat.eqb w 0
  | _, _ => false
  end.

(** A candle with its fields unchanged and one field added, [price_usd]. *)
Definition priced (row : pd.Row) (price_usd : float) : pd.Row :=
  pd.MkRow (pd.name row) (pd.cells row ++ [("price_usd", price_usd)]).

(** An observation of a series: a sample that carries a value (a NaN marks
    a missing one). *)
Definition observed_at (s : pd.Series) (j : nat) (t : Z) (f : float) : Prop :=
  pd.s_index s !! j = Some t ∧ pd.s_values s !! j = Some f ∧ is_nan f = false.

(** [f] is the last observation carried forward to [T]: the value of an
    observation at or before [T] such that every observation at or before
    [T] comes no later, in position and in time. *)
Definition carried_forward (s : pd.Series) (T : Z) (f : float) : Prop :=
  ∃ j t, observed_at s j t f ∧ (t ≤ T)%Z ∧
         ∀ j' t' f', observed_at s j' t' f' → (t' ≤ T)%Z →
                     (j' ≤ j)%nat ∧ (t' ≤ t)%Z.

Definition nothing_observed (s : pd.Series) (T : Z) : Prop :=
  ∀ j t f, observed_at s j t f → (T < t)%Z.

(** The value a frame holds in column [c] at position [i]. *)
Definition value_at (df : pd.DataFrame) (c : string) (i : nat) : option float :=
  match assoc c (pd.df_columns df) with
  | Some vs => vs !! i
  | None => None
  end.

(** The copy relation, under a memo from originals to copies. *)
Definition val_rel (memo : gmap loc loc) (v v' : val) : Prop :=
  match v, v' with
  | VAtom a, VAtom a' => a = a'
  | VRef l, VRef y => memo !! l = Some y
  | _, _ => False
  end.

Definition item_rel (memo : gmap loc loc) (kv kv' : string * val) : Prop :=
  kv.1 = kv'.1 ∧ val_rel memo kv.2 kv'.2.

Definition obj_rel (memo : gmap loc loc) (o o' : obj) : Prop :=
  match o, o' with
  | OList xs, OList ys => Forall2 (val_rel memo) xs ys
  | ODict kvs, ODict kvs' => Forall2 (item_rel memo) kvs kvs'
  | _, _ => False
  end.

Definition val_in (D : gset loc) (v : val) : Prop :=
  match v with
  | VAtom _ => True
  | VRef l => l ∈ D
  end.

Definition obj_in (D : gset loc) (o : obj) : Prop :=
  match o with
  | OList xs => Forall (val_in D) xs
  | ODict kvs => Forall (λ kv, val_in D kv.2) kvs
  end.

(** A store as the interpreter keeps it: no dangling reference, no
    dictionary with a key twice. *)
Definition heap_closed (h : gmap loc obj) : Prop :=
  ∀ l o, h !! l = Some o → obj_in (dom h) o.

Definition dicts_wf (h : gmap loc obj) : Prop :=
  ∀ l kvs, h !! l = Some (ODict kvs) → NoDup kvs.*1.

(** The state of a copy in progress: [P] are the originals whose copy is
    being filled; every other memoised original has a finished copy. *)
Record copying (h0 : gmap loc obj) (P : gset loc) (st : copy_st) : Prop := Copying {
  cp_old : ∀ l o, h0 !! l = Some o → st.2 !! l = Some o;
  cp_new : ∀ l y, st.1 !! l = Some y → y ∈ dom st.2 ∧ y ∉ dom h0;
  cp_inj : ∀ l1 l2 y, st.1 !! l1 = Some y → st.1 !! l2 = Some y → l1 = l2;
  cp_pending : ∀ l, l ∈ P → is_Some (st.1 !! l);
  cp_done : ∀ l y, st.1 !! l = Some y → l ∉ P →
    ∃ o o', h0 !! l = Some o ∧ st.2 !! y = Some o' ∧ obj_rel st.1 o o';
}.

(* --------------------------------------------------------------------- *)
(** ** [MarketHistory.latest]                                             *)
(* --------------------------------------------------------------------- *)

(** One day, in nanoseconds. *)
Definition DAY : Z := 86400000000000.

(** [from scrapedChart where time <= T and time > T - 1d] *)
Definition in_last_day (T : Z) (p : Chart) : bool :=
  String.eqb (measurement p) "scrapedChart"
  && (chart_time p <=? T)%Z && (T - DAY <? chart_time p)%Z.

(** [group by currencyPair order by time desc limit 1], read into the
    dictionary [{pair: point}]: of the points of a pair the newest stays; of
    two points of a pair with one timestamp the one written later. *)
Definition keep_newest (m : gmap string Chart) (p : Chart) : gmap string Chart :=
  match m !! currencyPair p with
  | Some q =>
      if (chart_time p <? chart_time q)%Z then m
      else <[currencyPair p := p]> m
  | None => <[currencyPair p := p]> m
  end.

Definition newest_per_pair (ps : list Chart) : gmap string Chart :=
  foldl keep_newest ∅ ps.

(** [MarketHistory.latest(time)] on the points of the database; a point is
    returned as it was written. *)
Definition latest (T : Z) (st : store) : gmap string Chart :=
  newest_per_pair (List.filter (in_last_day T) (points st)).

(** The columns [marshall] reads or drops, in the order it asks for them. *)
Definition marshall_needs : list string :=
  ["price_usd"; "price_btc"; "volume_usd"; "market_cap_by_available_supply"].

(* --------------------------------------------------------------------- *)
(** ** Collaborators that fail, to run the model on                       *)
(* --------------------------------------------------------------------- *)

Module faulty.

(** The adapter of [demo], but the exchange rejects every order. *)
Definition rejecting : MarketAdapter := {|
  market_history := @market_history demo.adapter;
  get_market_state := @get_market_state demo.adapter;
  filter_and_execute _ w := (w, Raise (ExternalError "exchange"));
  estimate_total_value_usd := @estimate_total_value_usd demo.adapter;
  scrape_latest := @scrape_latest demo.adapter;
|}.

(** The adapter of [demo], but it stops answering once the clock has
    passed 1003. *)
Definition tiring : MarketAdapter := {|
  market_history := @market_history demo.adapter;
  get_market_state t w :=
    if Qle_bool 1003 (w_clock w) then (w, Raise (ExternalError "adapter"))
    else @get_market_state demo.adapter t w;
  filter_and_execute := @filter_and_execute demo.adapter;
  estimate_total_value_usd := @estimate_total_value_usd demo.adapter;
  scrape_latest := @scrape_latest demo.adapter;
|}.



End faulty.

(* ===================================================================== *)
(** * Part II: properties                                                 *)
(* ===================================================================== *)

(** ** The object store under [deepcopy] and under a strategy's writes *)

Lemma extends_refl h0 : extends h0 h0.
Proof.
  split; [done|].
  intros l o Hl Hlo. exfalso. apply Hl, elem_of_dom. eauto.
Qed.

Lemma extends_dom h0 h l : extends h0 h → l ∈ dom h0 → l ∈ dom h.
Proof.
  intros [Hold _] [o Ho]%elem_of_dom. apply elem_of_dom. eauto.
Qed.

Lemma extends_dom_subseteq h0 h : extends h0 h → dom h0 ⊆ dom h.
Proof. intros Hext l Hl. by eapply extends_dom. Qed.

Lemma val_fresh_mono (D D' : gset loc) v :
  D ⊆ D' → val_fresh D' v → val_fresh D v.
Proof. intros Hsub. destruct v as [a|l]; simpl; [done|]. intros Hl Hin. auto. Qed.

Lemma obj_fresh_mono (D D' : gset loc) o :
  D ⊆ D' → obj_fresh D' o → obj_fresh D o.
Proof.
  intros Hsub. destruct o as [xs|kvs]; simpl; intros Hall;
    (eapply Forall_impl; [exact Hall|]).
  - intros v. by apply val_fresh_mono.
  - intros kv. by apply val_fresh_mono.
Qed.

Lemma extends_trans h0 h1 h2 : extends h0 h1 → extends h1 h2 → extends h0 h2.
Proof.
  intros [Hold1 Hnew1] [Hold2 Hnew2]. split.
  - intros l o Hl. by apply Hold2, Hold1.
  - intros l o Hl Hlo. destruct (h1 !! l) as [o1|] eqn:E.
    + rewrite (Hold2 _ _ E) in Hlo. injection Hlo as <-. by eapply Hnew1.
    + eapply obj_fresh_mono; [|eapply Hnew2; [|exact Hlo]].
      * intros l' [o' Hl']%elem_of_dom. apply elem_of_dom. eauto.
      * by apply not_elem_of_dom.
Qed.

(** A part of the store that the market history cannot reach. *)
Lemma restrict_extends A (h : gmap loc obj) history :
  beyond_reach A h history →
  extends (restrict A h) h ∧ val_fresh (dom (restrict A h)) history.
Proof.
  intros [Hhist Hout].
  assert (dom (restrict A h) ⊆ A) as Hsub.
  { intros l [o Hl]%elem_of_dom. unfold restrict in Hl.
    apply map_lookup_filter_Some in Hl as [_ Hl]. exact Hl. }
  split; [split|].
  - intros l o Hl. unfold restrict in Hl.
    by apply map_lookup_filter_Some in Hl as [Hl _].
  - intros l o Hl Hlo. eapply obj_fresh_mono; [exact Hsub|].
    apply (Hout l o); [|done]. intros HlA. apply Hl, elem_of_dom. exists o.
    unfold restrict. by apply map_lookup_filter_Some.
  - by eapply val_fresh_mono.
Qed.

Lemma fresh_not_old h0 (h : gmap loc obj) :
  extends h0 h → fresh (dom h) ∉ dom h0.
Proof.
  intros Hext Hin. apply (is_fresh (dom h)). by eapply extends_dom.
Qed.

(** Allocating a new, empty container. *)
Lemma extends_alloc h0 (h : gmap loc obj) o :
  extends h0 h → obj_fresh (dom h0) o →
  extends h0 (<[fresh (dom h) := o]> h).
Proof.
  intros Hext Ho. pose proof (fresh_not_old _ _ Hext) as Hy.
  destruct Hext as [Hold Hnew]. split.
  - intros l o' Hl. rewrite lookup_insert_ne; [by apply Hold|].
    intros Heq. apply Hy. rewrite Heq. apply elem_of_dom. eauto.
  - intros l o' Hl. destruct (decide (fresh (dom h) = l)) as [Heq|Hne].
    + rewrite Heq, lookup_insert_eq. by intros [= <-].
    + rewrite lookup_insert_ne; [|done]. by apply Hnew.
Qed.

(** Rewriting an object outside [h0] into one that still does not point
    into [h0]. *)
Lemma extends_alter h0 (h : gmap loc obj) f y :
  extends h0 h → y ∉ dom h0 →
  (∀ o, obj_fresh (dom h0) o → obj_fresh (dom h0) (f o)) →
  extends h0 (alter f y h).
Proof.
  intros [Hold Hnew] Hy Hf. split.
  - intros l o Hl. rewrite lookup_alter_ne; [by apply Hold|].
    intros Heq. apply Hy. rewrite Heq. apply elem_of_dom. eauto.
  - intros l o Hl. destruct (decide (y = l)) as [Heq|Hne].
    + subst l. rewrite lookup_alter_eq. destruct (h !! y) as [o0|] eqn:E; [|done].
      intros [= <-]. apply Hf. by eapply Hnew.
    + rewrite lookup_alter_ne; [|done]. by apply Hnew.
Qed.

Lemma assoc_set_fresh D k v (kvs : list (string * val)) :
  val_fresh D v → Forall (λ kv, val_fresh D kv.2) kvs →
  Forall (λ kv, val_fresh D kv.2) (assoc_set k v kvs).
Proof.
  intros Hv. induction 1 as [|[k' v'] rest Hh Ht IH]; simpl.
  - by constructor.
  - destruct (String.eqb k k'); constructor; auto.
Qed.

Lemma assoc_fresh D k v (kvs : list (string * val)) :
  Forall (λ kv, val_fresh D kv.2) kvs → assoc k kvs = Some v → val_fresh D v.
Proof.
  induction 1 as [|[k' v'] rest Hh Ht IH]; simpl; [done|].
  destruct (String.eqb k k'); [by intros [= <-]|done].
Qed.

Lemma extends_list_append h0 h y v :
  extends h0 h → y ∉ dom h0 → val_fresh (dom h0) v →
  extends h0 (list_append y v h).
Proof.
  intros Hext Hy Hv. apply extends_alter; [done..|].
  intros [xs|kvs]; simpl; [|done].
  intros Hxs. apply Forall_app. split; [done|by constructor].
Qed.

Lemma extends_dict_setitem h0 h y k v :
  extends h0 h → y ∉ dom h0 → val_fresh (dom h0) v →
  extends h0 (dict_setitem y k v h).
Proof.
  intros Hext Hy Hv. apply extends_alter; [done..|].
  intros [xs|kvs]; simpl; [done|]. by apply assoc_set_fresh.
Qed.

Section copier.
Variable h0 : gmap loc obj.
Variable rec : val → copy_st → copy_st * result val.
Hypothesis rec_inv : ∀ x st st' r,
  rec x st = (st', r) → copy_inv h0 st →
  copy_inv h0 st' ∧ ∀ v, r = Ok v → val_fresh (dom h0) v.

Lemma copy_list_items_inv y xs st st' r :
  y ∉ dom h0 → copy_list_items rec y xs st = (st', r) →
  copy_inv h0 st → copy_inv h0 st'.
Proof using rec_inv.
  intros Hy. revert st. induction xs as [|a xs IH]; intros st; simpl.
  - by intros [= <- <-].
  - destruct (rec a st) as [st1 [a'|e]] eqn:Ea.
    + intros Hgo Hinv. destruct (rec_inv _ _ _ _ Ea Hinv) as [[Hext Hmemo] Hv].
      apply (IH _ Hgo). split; simpl; [|done].
      apply extends_list_append; auto.
    + intros [= <- <-] Hinv. by destruct (rec_inv _ _ _ _ Ea Hinv).
Qed.

Lemma copy_dict_items_inv y kvs st st' r :
  y ∉ dom h0 → copy_dict_items rec y kvs st = (st', r) →
  copy_inv h0 st → copy_inv h0 st'.
Proof using rec_inv.
  intros Hy. revert st. induction kvs as [|[k v] kvs IH]; intros st; simpl.
  - by intros [= <- <-].
  - destruct (rec v st) as [st1 [v'|e]] eqn:Ev.
    + intros Hgo Hinv. destruct (rec_inv _ _ _ _ Ev Hinv) as [[Hext Hmemo] Hv].
      apply (IH _ Hgo). split; simpl; [|done].
      apply extends_dict_setitem; auto.
    + intros [= <- <-] Hinv. by destruct (rec_inv _ _ _ _ Ev Hinv).
Qed.
End copier.

Lemma copy_inv_alloc h0 (st : copy_st) l o :
  copy_inv h0 st → obj_fresh (dom h0) o →
  copy_inv h0 (<[l := fresh (dom st.2)]> st.1, <[fresh (dom st.2) := o]> st.2).
Proof.
  intros [Hext Hmemo] Ho. split; simpl.
  - by apply extends_alloc.
  - intros l' y. destruct (decide (l = l')) as [<-|Hne].
    + rewrite lookup_insert_eq. intros [= <-]. by apply fresh_not_old.
    + rewrite lookup_insert_ne; [|done]. apply Hmemo.
Qed.

Lemma deepcopy_memo_inv h0 frames : ∀ x st st' r,
  deepcopy_memo frames x st = (st', r) → copy_inv h0 st →
  copy_inv h0 st' ∧ ∀ v, r = Ok v → val_fresh (dom h0) v.
Proof.
  induction frames as [frames IH] using lt_wf_ind. intros x st st' r.
  destruct frames as [|[|below]]; simpl.
  - by intros [= <- <-] ?.
  - destruct x as [a|l]; [by intros [= <- <-] ?|].
    destruct (st.1 !! l) as [y|] eqn:Em.
    + intros [= <- <-] Hinv. split; [done|]. intros v [= <-]. simpl.
      by eapply (proj2 Hinv).
    + destruct (st.2 !! l); by intros [= <- <-] ?.
  - destruct x as [a|l]; [by intros [= <- <-] ?; split; [|intros ? [= <-]]|].
    destruct (st.1 !! l) as [y|] eqn:Em.
    { intros [= <- <-] Hinv. split; [done|]. intros v [= <-]. simpl.
      by eapply (proj2 Hinv). }
    pose proof (IH below ltac:(lia)) as IHb.
    destruct (st.2 !! l) as [[xs|kvs]|] eqn:Eh.
    + destruct (copy_list_items _ _ _ _) as [st1 [u|e]] eqn:Ec.
      * intros [= <- <-] Hinv.
        pose proof (fresh_not_old _ _ (proj1 Hinv)) as Hy. split.
        -- eapply (copy_list_items_inv h0 _ IHb); [exact Hy|exact Ec|].
           apply copy_inv_alloc; [done|]. by constructor.
        -- by intros v [= <-].
      * intros [= <- <-] Hinv.
        pose proof (fresh_not_old _ _ (proj1 Hinv)) as Hy. split; [|done].
        eapply (copy_list_items_inv h0 _ IHb); [exact Hy|exact Ec|].
        apply copy_inv_alloc; [done|]. by constructor.
    + destruct (copy_dict_items _ _ _ _) as [st1 [u|e]] eqn:Ec.
      * intros [= <- <-] Hinv.
        pose proof (fresh_not_old _ _ (proj1 Hinv)) as Hy. split.
        -- eapply (copy_dict_items_inv h0 _ IHb); [exact Hy|exact Ec|].
           apply copy_inv_alloc; [done|]. by constructor.
        -- by intros v [= <-].
      * intros [= <- <-] Hinv.
        pose proof (fresh_not_old _ _ (proj1 Hinv)) as Hy. split; [|done].
        eapply (copy_dict_items_inv h0 _ IHb); [exact Hy|exact Ec|].
        apply copy_inv_alloc; [done|]. by constructor.
    + by intros [= <- <-] ?.
Qed.

(** [deepcopy] leaves every existing object as it was, and its result does
    not point at any of them. *)
Lemma deepcopy_extends frames x h h' r :
  deepcopy frames x h = (h', r) →
  extends h h' ∧ ∀ v, r = Ok v → val_fresh (dom h) v.
Proof.
  unfold deepcopy.
  destruct (deepcopy_memo frames x (∅, h)) as [st r'] eqn:E.
  intros [= <- <-].
  destruct (deepcopy_memo_inv h frames _ _ _ _ E) as [[Hext _] Hv]; [|done].
  split; [apply extends_refl|]. intros l y. simpl. by rewrite lookup_empty.
Qed.

Lemma select_fresh h0 h v s v' :
  extends h0 h → val_fresh (dom h0) v → select h v s = Some v' →
  val_fresh (dom h0) v'.
Proof.
  intros [_ Hnew] Hv. destruct v as [a|l]; simpl; [done|].
  destruct (h !! l) as [[xs|kvs]|] eqn:E; [| |done].
  - destruct s as [k|i]; [done|]. intros Hi.
    pose proof (Hnew _ _ Hv E) as Hxs. simpl in Hxs.
    eapply Forall_forall; [exact Hxs|]. by eapply list_elem_of_lookup_2.
  - destruct s as [k|i]; [|done]. intros Hk.
    pose proof (Hnew _ _ Hv E) as Hkvs. simpl in Hkvs.
    by eapply assoc_fresh.
Qed.

Lemma resolve_fresh h0 h p : ∀ v v',
  extends h0 h → val_fresh (dom h0) v → resolve h v p = Some v' →
  val_fresh (dom h0) v'.
Proof.
  induction p as [|s p IH]; intros v v' Hext Hv; simpl.
  - by intros [= <-].
  - destruct (select h v s) as [v1|] eqn:E; [|done].
    apply IH; [done|]. by eapply select_fresh.
Qed.

Lemma target_fresh h0 h root p l :
  extends h0 h → val_fresh (dom h0) root → target h root p = Some l →
  l ∉ dom h0.
Proof.
  intros Hext Hroot. unfold target.
  destruct (resolve h root p) as [[a|l']|] eqn:E; [done| |done].
  intros [= <-]. by apply (resolve_fresh _ _ _ _ _ Hext Hroot E).
Qed.

Lemma eval_source_extends h0 h root s v h1 :
  extends h0 h → val_fresh (dom h0) root →
  eval_source h root s = Some (v, h1) →
  extends h0 h1 ∧ val_fresh (dom h0) v.
Proof.
  intros Hext Hroot. destruct s as [a|p| |]; simpl.
  - by intros [= <- <-].
  - destruct (resolve h root p) as [v0|] eqn:E; [|done].
    intros [= <- <-]. split; [done|]. by eapply resolve_fresh.
  - intros [= <- <-]. split; [|by apply fresh_not_old].
    apply extends_alloc; [done|]. by constructor.
  - intros [= <- <-]. split; [|by apply fresh_not_old].
    apply extends_alloc; [done|]. by constructor.
Qed.

Lemma apply_mutation_extends h0 h root m :
  extends h0 h → val_fresh (dom h0) root →
  extends h0 (apply_mutation root m h).
Proof.
  intros Hext Hroot. destruct m as [p k s|p k|p i s|p s|p]; simpl.
  - destruct (eval_source h root s) as [[v h1]|] eqn:Es; [|done].
    destruct (eval_source_extends _ _ _ _ _ _ Hext Hroot Es) as [Hext1 Hv].
    destruct (target h1 root p) as [l|] eqn:Et; [|done].
    apply extends_dict_setitem; [done| |done].
    exact (target_fresh _ _ _ _ _ Hext1 Hroot Et).
  - destruct (target h root p) as [l|] eqn:Et; [|done].
    apply extends_alter; [done|exact (target_fresh _ _ _ _ _ Hext Hroot Et)|].
    intros [xs|kvs]; simpl; [done|]. unfold assoc_del.
    intros Hkvs. apply Forall_forall. intros kv [_ Hin]%list_elem_of_filter.
    eapply Forall_forall in Hkvs; eauto.
  - destruct (eval_source h root s) as [[v h1]|] eqn:Es; [|done].
    destruct (eval_source_extends _ _ _ _ _ _ Hext Hroot Es) as [Hext1 Hv].
    destruct (target h1 root p) as [l|] eqn:Et; [|done].
    apply extends_alter; [done|exact (target_fresh _ _ _ _ _ Hext1 Hroot Et)|].
    intros [xs|kvs]; simpl; [|done]. intros Hxs. by apply Forall_insert.
  - destruct (eval_source h root s) as [[v h1]|] eqn:Es; [|done].
    destruct (eval_source_extends _ _ _ _ _ _ Hext Hroot Es) as [Hext1 Hv].
    destruct (target h1 root p) as [l|] eqn:Et; [|done].
    apply extends_list_append; [done| |done].
    exact (target_fresh _ _ _ _ _ Hext1 Hroot Et).
  - destruct (target h root p) as [l|] eqn:Et; [|done].
    apply extends_alter; [done|exact (target_fresh _ _ _ _ _ Hext Hroot Et)|].
    intros [xs|kvs]; simpl; by constructor.
Qed.

(** Whatever a strategy writes through a reference that does not point
    into [h0], the objects of [h0] stay as they were. *)
Lemma apply_mutations_extends h0 root ms : ∀ h,
  extends h0 h → val_fresh (dom h0) root →
  extends h0 (apply_mutations root ms h).
Proof.
  unfold apply_mutations. induction ms as [|m ms IH]; intros h Hext Hroot; simpl.
  - done.
  - apply IH; [|done]. by apply apply_mutation_extends.
Qed.

Lemma assoc_set_absent {A} k (v : A) kvs :
  assoc k kvs = None → assoc_set k v kvs = kvs ++ [(k, v)].
Proof.
  induction kvs as [|[k' v'] rest IH]; simpl; [done|].
  destruct (String.eqb k k'); [done|]. intros Hr. by rewrite IH.
Qed.

(** ** [deepcopy] returns a copy *)

Lemma val_rel_weaken memo memo' v v' :
  memo ⊆ memo' → val_rel memo v v' → val_rel memo' v v'.
Proof.
  intros Hsub. destruct v as [a|l], v' as [a'|y]; simpl; try done.
  intros Hy. by eapply lookup_weaken.
Qed.

Lemma obj_rel_weaken memo memo' o o' :
  memo ⊆ memo' → obj_rel memo o o' → obj_rel memo' o o'.
Proof.
  intros Hsub. destruct o as [xs|kvs], o' as [ys|kvs']; simpl; try done.
  - intros Hrel. eapply Forall2_impl; [exact Hrel|].
    intros v v'. by apply val_rel_weaken.
  - intros Hrel. eapply Forall2_impl; [exact Hrel|].
    intros kv kv' [Hk Hv]. split; [done|]. by eapply val_rel_weaken.
Qed.

Lemma assoc_None_keys {A} k (kvs : list (string * A)) :
  k ∉ kvs.*1 → assoc k kvs = None.
Proof.
  induction kvs as [|[k' v] rest IH]; simpl; [done|].
  intros Hnin. destruct (String.eqb k k') eqn:E.
  - apply String.eqb_eq in E as ->. exfalso. apply Hnin. by left.
  - apply IH. intros Hin. apply Hnin. by right.
Qed.

Lemma item_rel_keys memo kvs kvs' :
  Forall2 (item_rel memo) kvs kvs' → kvs.*1 = kvs'.*1.
Proof.
  induction 1 as [|kv kv' kvs kvs' [Hk _] _ IH]; [done|].
  rewrite !fmap_cons. by rewrite Hk, IH.
Qed.

Section copier_faithful.
Variable h0 : gmap loc obj.
Variable P : gset loc.
Variable rec : val → copy_st → copy_st * result val.
Hypothesis rec_copying : ∀ x st st' v,
  rec x st = (st', Ok v) → val_in (dom h0) x → copying h0 P st →
  copying h0 P st' ∧ st.1 ⊆ st'.1 ∧
  (∀ l, l ∈ dom st.2 → st'.2 !! l = st.2 !! l) ∧
  val_rel st'.1 x v.

(** Changing the copy of a pending original keeps the state of the copy. *)
Lemma copying_alter f l y st :
  copying h0 P st → l ∈ P → st.1 !! l = Some y →
  copying h0 P (st.1, alter f y st.2).
Proof using Type.
  intros [Hold Hnew Hinj Hpend Hdone] Hl Hy.
  destruct (Hnew _ _ Hy) as [Hyin Hyold].
  split; simpl.
  - intros l1 o Hl1. rewrite lookup_alter_ne; [by apply Hold|].
    intros Heq. apply Hyold. rewrite Heq. apply elem_of_dom. eauto.
  - intros l1 y1 Hy1. rewrite dom_alter_L. by eapply Hnew.
  - done.
  - done.
  - intros l1 y1 Hy1 Hl1. destruct (Hdone _ _ Hy1 Hl1) as (o & o' & Ho & Ho' & Hrel).
    exists o, o'. split; [done|]. split; [|done].
    rewrite lookup_alter_ne; [done|]. intros Heq. subst y1.
    apply Hl1. by rewrite <- (Hinj _ _ _ Hy Hy1).
Qed.

Lemma copy_list_items_copying l y : ∀ xs st st' xs0 ys0,
  copy_list_items rec y xs st = (st', Ok tt) →
  Forall (val_in (dom h0)) xs →
  copying h0 P st → l ∈ P → st.1 !! l = Some y →
  st.2 !! y = Some (OList ys0) → Forall2 (val_rel st.1) xs0 ys0 →
  copying h0 P st' ∧ st.1 ⊆ st'.1 ∧
  (∀ l1, l1 ∈ dom st.2 → l1 ≠ y → st'.2 !! l1 = st.2 !! l1) ∧
  ∃ ys, st'.2 !! y = Some (OList ys) ∧ Forall2 (val_rel st'.1) (xs0 ++ xs) ys.
Proof using rec_copying.
  induction xs as [|a xs IH]; intros st st' xs0 ys0; simpl.
  - intros [= <-] _ Hcp Hl Hy Hcell Hrel. split; [done|]. split; [done|].
    split; [done|]. exists ys0. by rewrite app_nil_r.
  - destruct (rec a st) as [st1 [a'|e]] eqn:Ea; [|done].
    intros Hgo Hxs Hcp Hl Hy Hcell Hrel.
    apply Forall_cons in Hxs as [Ha Hxs].
    destruct (rec_copying _ _ _ _ Ea Ha Hcp) as (Hcp1 & Hsub1 & Hfr1 & Hra).
    assert (st1.1 !! l = Some y) as Hy1 by (by eapply lookup_weaken).
    assert (y ∈ dom st.2) as Hyin by (apply elem_of_dom; eauto).
    assert (st1.2 !! y = Some (OList ys0)) as Hcell1 by (by rewrite Hfr1).
    destruct (IH (st1.1, list_append y a' st1.2) st' (xs0 ++ [a]) (ys0 ++ [a']) Hgo Hxs)
      as (Hcp' & Hsub' & Hfr' & ys & Hys & Hrel').
    + by apply (copying_alter _ l).
    + done.
    + done.
    + simpl. unfold list_append. by rewrite lookup_alter_eq, Hcell1.
    + simpl. apply Forall2_app; [|by constructor].
      eapply Forall2_impl; [exact Hrel|]. intros v v'. by apply val_rel_weaken.
    + simpl in *. split; [done|]. split; [by etrans|]. split.
      * intros l1 Hl1 Hne. rewrite Hfr'.
        -- unfold list_append. rewrite lookup_alter_ne by done. by apply Hfr1.
        -- unfold list_append. rewrite dom_alter_L. apply elem_of_dom.
           rewrite Hfr1 by done. by apply elem_of_dom.
        -- done.
      * exists ys. split; [done|]. by rewrite <- app_assoc in Hrel'.
Qed.

Lemma copy_dict_items_copying l y : ∀ kvs st st' kvs0 kvs0',
  copy_dict_items rec y kvs st = (st', Ok tt) →
  Forall (λ kv, val_in (dom h0) kv.2) kvs →
  NoDup (kvs0 ++ kvs).*1 →
  copying h0 P st → l ∈ P → st.1 !! l = Some y →
  st.2 !! y = Some (ODict kvs0') → Forall2 (item_rel st.1) kvs0 kvs0' →
  copying h0 P st' ∧ st.1 ⊆ st'.1 ∧
  (∀ l1, l1 ∈ dom st.2 → l1 ≠ y → st'.2 !! l1 = st.2 !! l1) ∧
  ∃ kvs', st'.2 !! y = Some (ODict kvs') ∧
          Forall2 (item_rel st'.1) (kvs0 ++ kvs) kvs'.
Proof using rec_copying.
  induction kvs as [|[k v] kvs IH]; intros st st' kvs0 kvs0'; simpl.
  - intros [= <-] _ _ Hcp Hl Hy Hcell Hrel. split; [done|]. split; [done|].
    split; [done|]. exists kvs0'. by rewrite app_nil_r.
  - destruct (rec v st) as [st1 [v'|e]] eqn:Ev; [|done].
    intros Hgo Hkvs Hnd Hcp Hl Hy Hcell Hrel.
    apply Forall_cons in Hkvs as [Hv Hkvs]. simpl in Hv.
    destruct (rec_copying _ _ _ _ Ev Hv Hcp) as (Hcp1 & Hsub1 & Hfr1 & Hrv).
    assert (st1.1 !! l = Some y) as Hy1 by (by eapply lookup_weaken).
    assert (y ∈ dom st.2) as Hyin by (apply elem_of_dom; eauto).
    assert (st1.2 !! y = Some (ODict kvs0')) as Hcell1 by (by rewrite Hfr1).
    assert (assoc k kvs0' = None) as Hfreshk.
    { apply assoc_None_keys. rewrite <- (item_rel_keys _ _ _ Hrel).
      rewrite fmap_app in Hnd. apply NoDup_app in Hnd as (_ & Hdisj & _).
      intros Hin. apply (Hdisj _ Hin). simpl. by left. }
    destruct (IH (st1.1, dict_setitem y k v' st1.2) st'
                 (kvs0 ++ [(k, v)]) (kvs0' ++ [(k, v')]) Hgo Hkvs)
      as (Hcp' & Hsub' & Hfr' & kvs' & Hkvs' & Hrel').
    + by rewrite <- app_assoc.
    + by apply (copying_alter _ l).
    + done.
    + done.
    + simpl. unfold dict_setitem.
      rewrite lookup_alter_eq, Hcell1. simpl.
      by rewrite (assoc_set_absent _ _ _ Hfreshk).
    + simpl. apply Forall2_app; [|by constructor].
      eapply Forall2_impl; [exact Hrel|]. intros kv kv' [Hk Hr].
      split; [done|]. by eapply val_rel_weaken.
    + simpl in *. split; [done|]. split; [by etrans|]. split.
      * intros l1 Hl1 Hne. rewrite Hfr'.
        -- unfold dict_setitem. rewrite lookup_alter_ne by done. by apply Hfr1.
        -- unfold dict_setitem. rewrite dom_alter_L. apply elem_of_dom.
           rewrite Hfr1 by done. by apply elem_of_dom.
        -- done.
      * exists kvs'. split; [done|]. by rewrite <- app_assoc in Hrel'.
Qed.

End copier_faithful.

(** Starting the copy of [l]: a new, empty object, memoised at once. *)
Lemma copying_start h0 P (st : copy_st) l o :
  copying h0 P st → st.1 !! l = None →
  copying h0 (P ∪ {[l]})
    (<[l := fresh (dom st.2)]> st.1, <[fresh (dom st.2) := o]> st.2).
Proof.
  intros [Hold Hnew Hinj Hpend Hdone] Hl.
  set (y := fresh (dom st.2)).
  assert (y ∉ dom st.2) as Hy by apply is_fresh.
  split; simpl.
  - intros l1 o1 Hl1. rewrite lookup_insert_ne; [by apply Hold|].
    intros Heq. apply Hy. rewrite Heq. apply elem_of_dom. eauto.
  - intros l1 y1. rewrite dom_insert_L.
    destruct (decide (l = l1)) as [<-|Hne].
    + rewrite lookup_insert_eq. intros [= <-].
      split; [apply elem_of_union; left; by apply elem_of_singleton|].
      intros Hin. apply Hy. apply elem_of_dom in Hin as [o1 Ho1].
      apply elem_of_dom. eauto.
    + rewrite lookup_insert_ne by done. intros Hy1.
      destruct (Hnew _ _ Hy1). split; [apply elem_of_union; by right|done].
  - intros l1 l2 y1.
    destruct (decide (l = l1)) as [<-|Hne1], (decide (l = l2)) as [<-|Hne2];
      rewrite ?lookup_insert_eq, ?lookup_insert_ne by done; try done.
    + intros [= <-] Hy2. destruct (Hnew _ _ Hy2). done.
    + intros Hy1 [= <-]. destruct (Hnew _ _ Hy1). done.
    + apply Hinj.
  - intros l1 [Hl1|Hl1%elem_of_singleton]%elem_of_union.
    + destruct (decide (l = l1)) as [<-|Hne]; [by rewrite lookup_insert_eq|].
      rewrite lookup_insert_ne by done. by apply Hpend.
    + subst l1. by rewrite lookup_insert_eq.
  - intros l1 y1 Hy1 Hl1.
    assert (l ≠ l1) as Hne.
    { intros ->. apply Hl1, elem_of_union. right. by apply elem_of_singleton. }
    rewrite lookup_insert_ne in Hy1 by done.
    destruct (Hdone _ _ Hy1) as (o1 & o1' & Ho1 & Ho1' & Hrel).
    { intros Hin. apply Hl1, elem_of_union. by left. }
    exists o1, o1'. split; [done|]. split.
    + rewrite lookup_insert_ne; [done|]. intros Heq.
      apply Hy. rewrite Heq. apply elem_of_dom. eauto.
    + eapply obj_rel_weaken; [|exact Hrel]. by apply insert_subseteq.
Qed.

(** Finishing the copy of [l]. *)
Lemma copying_finish h0 P (st : copy_st) l y o o' :
  copying h0 (P ∪ {[l]}) st → st.1 !! l = Some y →
  h0 !! l = Some o → st.2 !! y = Some o' → obj_rel st.1 o o' →
  copying h0 P st.
Proof.
  intros [Hold Hnew Hinj Hpend Hdone] Hy Ho Ho' Hrel. split; try done.
  - intros l1 Hl1. apply Hpend, elem_of_union. by left.
  - intros l1 y1 Hy1 Hl1. destruct (decide (l1 = l)) as [->|Hne].
    + rewrite Hy in Hy1. injection Hy1 as <-. eauto.
    + apply Hdone; [done|].
      by intros [Hin|Hin%elem_of_singleton]%elem_of_union.
Qed.

Lemma assoc_rel memo k kvs kvs' :
  Forall2 (item_rel memo) kvs kvs' →
  option_Forall2 (val_rel memo) (assoc k kvs) (assoc k kvs').
Proof.
  induction 1 as [|[k1 v1] [k2 v2] kvs kvs' [Hk Hv] _ IH]; simpl.
  - constructor.
  - simpl in Hk. subst k2. destruct (String.eqb k k1); [by constructor|done].
Qed.

(** Along every path the original and the copy hold the same atoms and,
    where the original holds an object, the copy holds the copy of it. *)
Lemma resolve_copy h0 memo h' p : ∀ v v',
  copying h0 ∅ (memo, h') → val_rel memo v v' →
  option_Forall2 (val_rel memo) (resolve h0 v p) (resolve h' v' p).
Proof.
  induction p as [|s p IH]; intros v v' Hcp Hv; simpl.
  - by constructor.
  - assert (option_Forall2 (val_rel memo) (select h0 v s) (select h' v' s)) as Hs.
    { destruct v as [a|l], v' as [a'|y]; simpl in *; try done; [constructor|].
      destruct (cp_done _ _ _ Hcp _ _ Hv) as (o & o' & Ho & Ho' & Hrel);
        [apply not_elem_of_empty|]. simpl in Ho'. rewrite Ho, Ho'.
      destruct o as [xs|kvs], o' as [ys|kvs']; simpl in Hrel; try done.
      + destruct s as [k|i]; [constructor|]. by apply Forall2_lookup.
      + destruct s as [k|i]; [|constructor]. by apply assoc_rel. }
    destruct Hs as [v1 v1' Hv1|]; [|constructor]. by apply IH.
Qed.

Section deepcopy_faithful.
Variable h0 : gmap loc obj.
Hypothesis h0_closed : heap_closed h0.
Hypothesis h0_dicts : dicts_wf h0.

Lemma deepcopy_memo_copying frames : ∀ P x st st' v,
  deepcopy_memo frames x st = (st', Ok v) →
  val_in (dom h0) x → copying h0 P st →
  copying h0 P st' ∧ st.1 ⊆ st'.1 ∧
  (∀ l, l ∈ dom st.2 → st'.2 !! l = st.2 !! l) ∧
  val_rel st'.1 x v.
Proof using h0_closed h0_dicts.
  induction frames as [frames IHf] using lt_wf_ind. intros P x st st' v.
  destruct frames as [|[|d]]; simpl.
  - done.
  - destruct x as [a|l]; [done|].
    destruct (st.1 !! l) as [y|] eqn:Em; [by intros [= <- <-]|].
    by destruct (st.2 !! l).
  - destruct x as [a|l]; [by intros [= <- <-]|].
    destruct (st.1 !! l) as [y|] eqn:Em; [by intros [= <- <-]|].
    pose proof (IHf d ltac:(lia)) as IH.
    destruct (st.2 !! l) as [[xs|kvs]|] eqn:Eh; [| |done].
    + destruct (copy_list_items _ _ _ _) as [st1 [[]|e]] eqn:Ec; [|done].
      intros [= <- <-] Hl Hcp. simpl in Hl.
      apply elem_of_dom in Hl as [o Ho].
      pose proof (cp_old _ _ _ Hcp _ _ Ho) as Ho'. rewrite Eh in Ho'.
      injection Ho' as <-.
      pose proof (h0_closed _ _ Ho) as Hxs. simpl in Hxs.
      pose proof (copying_start _ _ _ l (OList []) Hcp Em) as Hcp0.
      set (y := fresh (dom st.2)) in *.
      destruct (copy_list_items_copying h0 (P ∪ {[l]}) (deepcopy_memo d)
                  (IH (P ∪ {[l]})) l y xs _ _ [] [] Ec Hxs Hcp0)
        as (Hcp1 & Hsub1 & Hfr1 & ys & Hys & Hrel).
      * apply elem_of_union. right. by apply elem_of_singleton.
      * simpl. by rewrite lookup_insert_eq.
      * simpl. by rewrite lookup_insert_eq.
      * constructor.
      * simpl in *.
        assert (st1.1 !! l = Some y) as Hy1.
        { eapply lookup_weaken; [|exact Hsub1]. by rewrite lookup_insert_eq. }
        split; [by eapply (copying_finish _ _ _ l y (OList xs) (OList ys))|].
        split; [etrans; [|exact Hsub1]; by apply insert_subseteq|].
        split; [|done].
        intros l1 Hl1.
        assert (l1 ≠ y) as Hne by (intros ->; by apply (is_fresh (dom st.2))).
        rewrite Hfr1; [by rewrite lookup_insert_ne| |done].
        rewrite dom_insert_L. apply elem_of_union. by right.
    + destruct (copy_dict_items _ _ _ _) as [st1 [[]|e]] eqn:Ec; [|done].
      intros [= <- <-] Hl Hcp. simpl in Hl.
      apply elem_of_dom in Hl as [o Ho].
      pose proof (cp_old _ _ _ Hcp _ _ Ho) as Ho'. rewrite Eh in Ho'.
      injection Ho' as <-.
      pose proof (h0_closed _ _ Ho) as Hkvs. simpl in Hkvs.
      pose proof (h0_dicts _ _ Ho) as Hnd.
      pose proof (copying_start _ _ _ l (ODict []) Hcp Em) as Hcp0.
      set (y := fresh (dom st.2)) in *.
      destruct (copy_dict_items_copying h0 (P ∪ {[l]}) (deepcopy_memo d)
                  (IH (P ∪ {[l]})) l y kvs _ _ [] [] Ec Hkvs Hnd Hcp0)
        as (Hcp1 & Hsub1 & Hfr1 & kvs' & Hkvs' & Hrel).
      * apply elem_of_union. right. by apply elem_of_singleton.
      * simpl. by rewrite lookup_insert_eq.
      * simpl. by rewrite lookup_insert_eq.
      * constructor.
      * simpl in *.
        assert (st1.1 !! l = Some y) as Hy1.
        { eapply lookup_weaken; [|exact Hsub1]. by rewrite lookup_insert_eq. }
        split; [by eapply (copying_finish _ _ _ l y (ODict kvs) (ODict kvs'))|].
        split; [etrans; [|exact Hsub1]; by apply insert_subseteq|].
        split; [|done].
        intros l1 Hl1.
        assert (l1 ≠ y) as Hne by (intros ->; by apply (is_fresh (dom st.2))).
        rewrite Hfr1; [by rewrite lookup_insert_ne| |done].
        rewrite dom_insert_L. apply elem_of_union. by right.
Qed.

(** [deepcopy] returns a copy: what can be read from the original along a
    path is read from the copy along the same path, atom for atom. *)
Theorem deepcopy_faithful frames x h' v :
  val_in (dom h0) x →
  deepcopy frames x h0 = (h', Ok v) →
  ∃ memo,
    val_rel memo x v ∧
    ∀ p, option_Forall2 (val_rel memo) (resolve h0 x p) (resolve h' v p).
Proof using h0_closed h0_dicts.
  intros Hx. unfold deepcopy.
  destruct (deepcopy_memo frames x (∅, h0)) as [st [v0|e]] eqn:E; [|done].
  intros [= <- <-].
  destruct (deepcopy_memo_copying frames ∅ _ _ _ _ E Hx) as (Hcp & _ & _ & Hv).
  { split; simpl; done. }
  exists st.1. split; [done|]. intros p.
  apply resolve_copy; [|done]. by destruct st.
Qed.

End deepcopy_faithful.

(** ** [Fund.step] *)

Section fund_properties.
Context `{!Runtime, !MarketAdapter, !Strategy}.

Lemma bind_run {A B} (m : Run A) (k : A → Run B) w :
  (m ≫= k) w = bind m k w.
Proof. reflexivity. Qed.



Lemma apply_writes_extends h0 snapshot history ws : ∀ h,
  extends h0 h → val_fresh (dom h0) snapshot → val_fresh (dom h0) history →
  extends h0 (apply_writes snapshot history ws h).
Proof.
  unfold apply_writes.
  induction ws as [|[[] m] ws IH]; intros h Hext Hs Hh; simpl; [done|..].
  - apply IH; [|done..]. by apply apply_mutation_extends.
  - apply IH; [|done..]. by apply apply_mutation_extends.
Qed.

Lemma consult_extends h0 copied w w' log r :
  consult copied w = (w', log, r) →
  extends h0 (w_heap w) → val_fresh (dom h0) copied →
  val_fresh (dom h0) market_history →
  extends h0 (w_heap w') ∧ log = [EProposeTrades copied market_history].
Proof.
  unfold consult. intros [= <- <- <-] Hext Hc Hh. simpl. split; [|done].
  by apply apply_writes_extends.
Qed.

(** The world in which the proposals are executed still holds, unchanged,
    every object of a part [h0] of the adapter's store that the market
    history cannot reach; the strategy was called, if at all, with the
    result of [deepcopy] on the adapter's answer and with the adapter's
    market history. *)
Lemma proposals_extend h0 t w w1 r1 w3 log r :
  get_market_state t w = (w1, r1) →
  (snapshot t ≫= consult) w = (w3, log, r) →
  extends h0 (w_heap w1) → val_fresh (dom h0) market_history →
  extends h0 (w_heap w3) ∧
  executed log = [] ∧
  ∀ c hist, EProposeTrades c hist ∈ log →
       hist = market_history ∧
       val_fresh (dom (w_heap w1)) c ∧
       ∃ ms h2, r1 = Ok ms ∧
                deepcopy frames_left ms (w_heap w1) = (h2, Ok c).
Proof.
  intros Hg. rewrite bind_run. unfold bind, snapshot. rewrite bind_run.
  unfold bind, invoke, on_heap. rewrite Hg.
  intros Hrun Hext0 Hhist. revert Hrun.
  destruct r1 as [ms|e]; cbn [app].
  - destruct (deepcopy frames_left ms (w_heap w1)) as [h2 [c|e]] eqn:Ec.
    + destruct (deepcopy_extends _ _ _ _ _ Ec) as [Hext Hv].
      destruct (consult c (World h2 (w_clock w1))) as [[w3' log3] r3] eqn:Ek.
      intros [= <- <- <-].
      destruct (consult_extends h0 _ _ _ _ _ Ek) as [Hext3 ->]; [| |done|].
      * by eapply extends_trans.
      * eapply val_fresh_mono; [|by apply Hv]. by eapply extends_dom_subseteq.
      * split; [done|]. split; [done|].
        intros c' hist Hin. apply elem_of_cons in Hin as [Hin|Hin]; [done|].
        apply list_elem_of_singleton in Hin as [= -> ->].
        split; [done|]. split; [by apply Hv|]. by exists ms, h2.
    + destruct (deepcopy_extends _ _ _ _ _ Ec) as [Hext Hv].
      intros [= <- <- <-]. split; [by eapply extends_trans|]. split; [done|].
      intros c' hist Hin. apply list_elem_of_singleton in Hin. done.
  - intros [= <- <- <-]. split; [done|]. split; [done|].
    intros c' hist Hin. apply list_elem_of_singleton in Hin. done.
Qed.




(** X19. What the deep copy does achieve.  Whatever the strategy writes
    through the two references it is handed, every object of the adapter
    that the market history cannot reach is unchanged in the world in which
    the proposals are executed and valued.  The snapshot the strategy is
    called with is the result of [deepcopy] on what [get_market_state]
    returned; nothing that can be read from it is an object the adapter
    had; and on a well-formed store it reads, path for path, what the
    original reads. *)
Theorem snapshot_isolation t w w1 market_state w3 log proposed :
  get_market_state t w = (w1, market_state) →
  (snapshot t ≫= consult) w = (w3, log, proposed) →
  (∀ A, beyond_reach A (w_heap w1) market_history →
        ∀ l o, l ∈ A → w_heap w1 !! l = Some o → w_heap w3 !! l = Some o) ∧
  (∀ c hist, EProposeTrades c hist ∈ log →
     hist = market_history ∧
     ∃ ms h2,
       market_state = Ok ms ∧
       deepcopy frames_left ms (w_heap w1) = (h2, Ok c) ∧
       (∀ p v, resolve h2 c p = Some v → val_fresh (dom (w_heap w1)) v) ∧
       (heap_closed (w_heap w1) → dicts_wf (w_heap w1) →
        val_in (dom (w_heap w1)) ms →
        ∃ memo,
          val_rel memo ms c ∧
          ∀ p, option_Forall2 (val_rel memo)
                 (resolve (w_heap w1) ms p) (resolve h2 c p))).
Proof.
  intros Hg Hp. split.
  - intros A HA l o Hl Hlo.
    destruct (restrict_extends _ _ _ HA) as [Hext Hhist].
    destruct (proposals_extend _ _ _ _ _ _ _ _ Hg Hp Hext Hhist)
      as ([Hold _] & _ & _).
    apply Hold. unfold restrict. by apply map_lookup_filter_Some.
  - destruct (proposals_extend ∅ _ _ _ _ _ _ _ Hg Hp) as (_ & _ & Hc).
    { split; [by intros ? ? ?%lookup_empty_Some|].
      intros l o _ _. rewrite dom_empty_L.
      destruct o as [xs|kvs]; simpl; apply Forall_forall.
      - intros [a|l'] _; simpl; [done|]. apply not_elem_of_empty.
      - intros [k' [a|l']] _; simpl; [done|]. apply not_elem_of_empty. }
    { rewrite dom_empty_L. destruct market_history as [a|l]; simpl; [done|].
      apply not_elem_of_empty. }
    intros c hist Hin.
    destruct (Hc c hist Hin) as (-> & Hfresh & ms & h2 & -> & Hcopy).
    split; [done|]. exists ms, h2. split; [done|]. split; [done|].
    destruct (deepcopy_extends _ _ _ _ _ Hcopy) as [Hext _]. split.
    + intros p v Hr. by eapply resolve_fresh.
    + intros Hclosed Hdicts Hms. by eapply deepcopy_faithful.
Qed.


End fund_properties.

(** The market state of [demo] is beyond the reach of its market history. *)
Example demo_state_beyond_reach :
  beyond_reach (list_to_set [1; 2; 3; 4]%positive) demo.adapter_heap (VRef 5).
Proof.
  split.
  - simpl. apply (bool_decide_unpack _). vm_compute. reflexivity.
  - intros l o Hl Hlo. unfold demo.adapter_heap in Hlo.
    repeat (apply lookup_insert_Some in Hlo as [[<- <-]|[_ Hlo]];
            [try (exfalso; apply Hl; apply (bool_decide_unpack _);
                  vm_compute; reflexivity);
             repeat constructor|]).
    by rewrite lookup_empty in Hlo.
Qed.


(** The tampering strategy of [demo] leaves the adapter's balances as they
    were. *)
Lemma snapshot_isolation_witness :
  w_heap ((@snapshot demo.runtime demo.adapter (Stamp 0)
             ≫= @consult demo.adapter demo.meddler) demo.world0).1.1 !! 2%positive
  = Some (ODict [("BTC", VAtom (AFloat 1.5)); ("ETH", VAtom (AFloat 10))]).
Proof.
  set (X := (@snapshot demo.runtime demo.adapter (Stamp 0)
               ≫= @consult demo.adapter demo.meddler) demo.world0).
  assert (X = (X.1.1, X.1.2, X.2)) as Hp by (by destruct X as [[? ?] ?]).
  refine (proj1 (@snapshot_isolation demo.runtime demo.adapter demo.meddler
                   (Stamp 0) demo.world0 _ _ _ _ _ eq_refl Hp)
                _ demo_state_beyond_reach 2%positive _ _ _).
  - apply (bool_decide_unpack _). vm_compute. reflexivity.
  - vm_compute. reflexivity.
Defined.


(** ** The backtest driver *)


Lemma Timestamp_Ok t t' : pd.Timestamp t = Ok t' → t' = t.
Proof.
  unfold pd.Timestamp. destruct (_ && _); [|done]. by intros [= <-].
Qed.








Lemma stepped_at_app log1 log2 :
  stepped_at (log1 ++ log2) = stepped_at log1 ++ stepped_at log2.
Proof. apply omap_app. Qed.

Lemma yielded_app log1 log2 :
  yielded (log1 ++ log2) = yielded log1 ++ yielded log2.
Proof. apply omap_app. Qed.

Section backtest_properties.
Context `{!Runtime, !MarketAdapter, !Strategy}.

(** Every call of [step] asks the adapter for its market state once, first,
    and yields nothing itself. *)
Lemma step_log t w :
  stepped_at (step t w).1.2 = [t] ∧ yielded (step t w).1.2 = [].
Proof.
  unfold step, snapshot, consult, execute, on_heap, invoke,
    mbind, Run_bind, mret, Run_ret, bind, ret.
  destruct (get_market_state t w) as [w1 [ms|e]]; [|done].
  destruct (deepcopy frames_left ms (w_heap w1)) as [h2 [c|e]]; [|done].
  simpl. destruct (proposed (propose_trades c _ _)) as [[|tr trs]|e]; [| |done].
  - by destruct (estimate_total_value_usd _) as [w4 [usd|e]].
  - destruct (filter_and_execute _ _) as [w4 [[]|e]]; [|done].
    by destruct (estimate_total_value_usd _) as [w5 [usd|e]].
Qed.




End backtest_properties.





(** ** The live driver *)

#[global] Instance Qmod_comp : Proper (Qeq ==> Qeq ==> Qeq) Qmod.
Proof.
  intros x x' Hx y y' Hy. unfold Qmod.
  assert (Qfloor (x / y) = Qfloor (x' / y')) as ->.
  { apply Qfloor_comp. by rewrite Hx, Hy. }
  by rewrite Hx, Hy.
Qed.

Lemma Qmod_bounds x P : (0 < P → 0 <= Qmod x P ∧ Qmod x P < P)%Q.
Proof.
  intros HP. unfold Qmod.
  pose proof (Qfloor_le (x / P)) as Hlo.
  pose proof (Qlt_floor (x / P)) as Hhi.
  rewrite inject_Z_plus in Hhi.
  assert (x == (x / P) * P)%Q as Hx.
  { field. intros E. rewrite E in HP. by apply Qlt_irrefl in HP. }
  set (q := (x / P)%Q) in *. set (m := inject_Z (Qfloor q)) in *.
  change (inject_Z 1) with 1%Q in Hhi.
  split.
  - assert (0 <= (q - m) * P)%Q by (apply Qmult_le_0_compat; lra).
    rewrite Hx. lra.
  - assert (0 < (m + 1 - q) * P)%Q by (apply Qmult_lt_0_compat; lra).
    rewrite Hx. lra.
Qed.

Lemma Qmod_multiple P k : (¬ P == 0 → Qmod (P * inject_Z k) P == 0)%Q.
Proof.
  intros HP. unfold Qmod.
  assert (Qfloor (P * inject_Z k / P) = k) as ->.
  { rewrite <- (Qfloor_Z k) at 2. apply Qfloor_comp. by field. }
  ring.
Qed.

(** After sleeping for [PERIOD - (elapsed % PERIOD)] the time elapsed since
    the loop started is a whole number of periods. *)
Lemma wake_on_grid now start_time PERIOD :
  (0 < PERIOD →
   Qmod (now + (PERIOD - Qmod (now - start_time) PERIOD) - start_time) PERIOD
   == 0)%Q.
Proof.
  intros HP.
  assert (now + (PERIOD - Qmod (now - start_time) PERIOD) - start_time
          == PERIOD * inject_Z (1 + Qfloor ((now - start_time) / PERIOD)))%Q
    as ->.
  { unfold Qmod. rewrite inject_Z_plus. change (inject_Z 1) with 1%Q. ring. }
  apply Qmod_multiple. intros E. rewrite E in HP. by apply Qlt_irrefl in HP.
Qed.

Lemma py_mod_Qmod x y r : py_mod x y = Ok r → r = Qmod x y.
Proof. unfold py_mod. destruct (Qeq_bool y 0); [done|]. by intros [= <-]. Qed.

Section live_properties.
Context `{!Runtime, !MarketAdapter, !Strategy}.

(** A turn that reaches its end did its work, read the clock, and slept
    for the period less the elapsed time modulo the period. *)
Lemma live_iteration_inv start_time PERIOD w w' log d :
  live_iteration start_time PERIOD w = (w', log, Ok d) →
  ∃ w_s log_s usd,
    turn_work w = (w_s, log_s, Ok usd) ∧
    d = (PERIOD - Qmod (w_clock w_s - start_time) PERIOD)%Q ∧
    log = log_s ++ [ESleep d] ∧
    w' = World (w_heap w_s) (w_clock w_s + d)%Q ∧
    (0 <= d)%Q.
Proof.
  unfold live_iteration, turn_work, time, sleep, raise,
    mbind, Run_bind, mret, Run_ret, bind, ret, invoke.
  destruct (scrape_latest w) as [w1 [[]|e]]; [|done].
  destruct (step (LiveNow (w_clock w)) w1) as [[w_s log_s] [usd|e]]; [|done].
  destruct (py_mod (w_clock w_s - start_time) PERIOD) as [r|e] eqn:Em; [|done].
  apply py_mod_Qmod in Em as ->.
  destruct (Qle_bool 0 _) eqn:Ed; [|done].
  intros [= <- <- <-]. exists w_s, ([EScrapeLatest] ++ log_s), usd.
  split; [done|]. split; [done|]. split; [by rewrite <- !app_assoc|].
  split; [done|]. by apply Qle_bool_iff.
Qed.


(** The live loop as a whole: with a positive trade interval every sleep
    lies in (0, PERIOD], and after each turn the clock is a whole number of
    periods past the start. *)
Lemma live_loop_on_grid turns : ∀ start_time PERIOD w w' log ds,
  (0 < PERIOD)%Q →
  live_loop turns start_time PERIOD w = (w', log, Ok ds) →
  length ds = turns ∧
  Forall (λ d, 0 < d ∧ d <= PERIOD)%Q ds ∧
  (turns ≠ 0%nat → Qmod (w_clock w' - start_time) PERIOD == 0)%Q.
Proof.
  induction turns as [|n IH]; intros start_time PERIOD w w' log ds HP; simpl.
  - intros [= <- <- <-]. done.
  - unfold mbind, Run_bind, mret, Run_ret, bind, ret.
    destruct (live_iteration start_time PERIOD w) as [[w1 log1] [d|e]] eqn:Hd;
      [|done].
    destruct (live_loop n start_time PERIOD w1) as [[w2 log2] [ds'|e]] eqn:Hds;
      [|done].
    intros [= <- <- <-].
    destruct (IH _ _ _ _ _ _ HP Hds) as (Hlen & Hall & Hgrid).
    destruct (live_iteration_inv _ _ _ _ _ _ Hd)
      as (w_s & log_s & usd & _ & Heq & _ & Hw1 & _).
    destruct (Qmod_bounds (w_clock w_s - start_time) PERIOD HP).
    split; [by rewrite <- Hlen|]. split.
    + constructor; [|done]. rewrite Heq. split; lra.
    + intros _. destruct n as [|n]; [|by apply Hgrid].
      simpl in Hds. injection Hds as <- _ _.
      rewrite Hw1, Heq. simpl. by apply wake_on_grid.
Qed.

End live_properties.


(** ** The ingestion run *)

Section ingestion_failures.
Context `{!Upstream}.

Lemma scrape_markets_app hist unix pre rest st :
  scrape_markets hist unix (pre ++ rest) st =
  match scrape_markets hist unix pre st with
  | (st1, Ok _) => scrape_markets hist unix rest st1
  | (st1, Raise e) => (st1, Raise e)
  end.
Proof.
  revert st. induction pre as [|m pre IH]; intros st; simpl; [done|].
  unfold mbind, Ingest_bind, lift, write_points, print.
  destruct (historical_prices_of hist m 900 unix time_time) as [cs|e]; [|done].
  apply IH.
Qed.

(** C2, as the code has it.  The loop over the markets has no handler: when
    the fetch for one pair raises, the run stops there with that exception;
    the store holds what the pairs before it left, and the pairs after it
    (and the reference series) are never reached. *)
Theorem pair_failure_aborts_run hist unix pre market rest e st :
  historical_prices_of hist market 900 unix time_time = Raise e →
  scrape_markets hist unix (pre ++ market :: rest) st =
  match scrape_markets hist unix pre st with
  | (st1, Ok _) => (st1, Raise e)
  | (st1, Raise e') => (st1, Raise e')
  end.
Proof.
  intros Hfail. rewrite scrape_markets_app.
  destruct (scrape_markets hist unix pre st) as [st1 [[]|e']]; [|done].
  simpl. unfold mbind, Ingest_bind, lift. by rewrite Hfail.
Qed.

(** C3, as the code has it.  On a store without any point the query for
    the latest reading returns nothing and taking its first element raises:
    the run ends in an exception ([IndexError] once the reference series
    was fetched) and has written nothing. *)
Theorem cold_start_raises st :
  points st = [] →
  ∃ e, scrape_since_last_reading st = (st, Raise e) ∧
       (is_ok (coin_history "bitcoin") = true → e = IndexError).
Proof.
  intros Hcold. unfold scrape_since_last_reading, query_latest,
    mbind, Ingest_bind, lift.
  destruct (coin_history "bitcoin") as [hist|e].
  - rewrite Hcold. by exists IndexError.
  - by exists e.
Qed.

End ingestion_failures.

(** The exchange fails for BTC_ETH: the loop stops there. *)
Lemma pair_failure_aborts_run_witness :
  @scrape_markets feed.flaky feed.reference 1499999100
    ["BTC_ETH"; "BTC_XMR"] feed.warm
  = (feed.warm, Raise (ExternalError "poloniex")).
Proof.
  exact (@pair_failure_aborts_run feed.flaky feed.reference 1499999100 []
           "BTC_ETH" ["BTC_XMR"] (ExternalError "poloniex") feed.warm eq_refl).
Defined.

(** The whole run on that exchange: nothing is written, neither for
    BTC_XMR, whose candles the exchange serves, nor for the reference
    series; on the exchange that does not fail all three are written. *)
Example flaky_run_writes_nothing :
  @scrape_since_last_reading feed.flaky feed.warm
  = (feed.warm, Raise (ExternalError "poloniex")) ∧
  is_ok (@historical_prices_of feed.flaky feed.reference "BTC_XMR" 900
           1499999100 1500001800) = true ∧
  printed (@scrape_since_last_reading feed.healthy feed.warm).1
  = ["scraped BTC_ETH"; "scraped BTC_XMR"; "scraped USD_BTC"].
Proof. vm_compute. done. Qed.

Lemma cold_start_raises_witness :
  @scrape_since_last_reading feed.healthy feed.cold
  = (feed.cold, Raise IndexError).
Proof.
  destruct (@cold_start_raises feed.healthy feed.cold eq_refl)
    as (e & Hrun & He).
  rewrite Hrun. by rewrite (He eq_refl).
Defined.

(** ** Candles to chart points *)

Lemma assoc_app_other {A} k k' (v : A) kvs :
  String.eqb k k' = false → assoc k (kvs ++ [(k', v)]) = assoc k kvs.
Proof.
  intros Hne. induction kvs as [|[k0 v0] rest IH]; simpl.
  - by rewrite Hne.
  - by destruct (String.eqb k k0).
Qed.

Lemma assoc_filter_absent {A} k (keep : string * A → bool) kvs :
  assoc k kvs = None → assoc k (List.filter keep kvs) = None.
Proof.
  induction kvs as [|[k' v'] rest IH]; simpl; [done|].
  destruct (String.eqb k k') eqn:E; [done|]. intros Hr.
  destruct (keep (k', v')); simpl; [rewrite E|]; by apply IH.
Qed.

Lemma mapM_Forall2 {A B} (f : A → result B) xs ys :
  pd.mapM f xs = Ok ys → Forall2 (λ x y, f x = Ok y) xs ys.
Proof.
  revert ys. induction xs as [|x xs IH]; intros ys; simpl.
  - intros [= <-]. constructor.
  - destruct (f x) as [y|e] eqn:Ex; [|done].
    destruct (pd.mapM f xs) as [ys'|e]; [|done].
    intros [= <-]. constructor; auto.
Qed.

Lemma iterrows_length df : length (pd.iterrows df) = length (pd.df_index df).
Proof. unfold pd.iterrows. apply length_imap. Qed.

(** Assigning a new column adds one cell at the end of every row. *)
Lemma iterrows_set_column df c s :
  assoc c (pd.df_columns df) = None →
  length (pd.s_values s) = length (pd.df_index df) →
  pd.iterrows (pd.set_column c s df)
  = zip_with (λ row v, pd.MkRow (pd.name row) (pd.cells row ++ [(c, v)]))
             (pd.iterrows df) (pd.s_values s).
Proof.
  intros Habs Hlen. unfold pd.iterrows, pd.set_column. simpl.
  rewrite (assoc_set_absent _ _ _ Habs).
  apply list_eq. intros i.
  rewrite lookup_zip_with, !list_lookup_imap.
  destruct (pd.df_index df !! i) as [t|] eqn:Ei; simpl; [|done].
  destruct (lookup_lt_is_Some_2 (pd.s_values s) i) as [v Hv].
  { rewrite Hlen. by eapply lookup_lt_Some. }
  rewrite Hv. simpl. unfold pd.row_at. simpl.
  rewrite fmap_app. simpl. by rewrite (nth_lookup_Some _ _ nan _ Hv).
Qed.

Lemma drop_Ok labels df df' :
  pd.drop labels df = Ok df' →
  df' = pd.Frame (pd.df_index df)
          (List.filter (λ kv, negb (pd.has_label labels kv.1)) (pd.df_columns df)).
Proof.
  unfold pd.drop.
  destruct (List.find (λ c, negb (pd.has_label (pd.df_columns df).*1 c)) labels);
    [done|]. by intros [= <-].
Qed.

Section candles.
Context `{!Upstream}.

Lemma is_sentinel_no_trading chart b :
  is_sentinel chart = Ok b → no_trading (fields chart) = b.
Proof.
  unfold is_sentinel, no_trading.
  destruct (assoc "volume" (fields chart)) as [v|]; [|done].
  destruct (PrimFloat.eqb v 0).
  - destruct (assoc "weightedAverage" (fields chart)) as [w|]; [|done].
    by intros [= <-].
  - intros [= <-]. by destruct (assoc "weightedAverage" (fields chart)).
Qed.

Lemma emit_charts_filter pair rows charts :
  emit_charts pair rows = Ok charts →
  charts = scraped_chart pair
             <$> filter (λ row, no_trading (pd.cells row) = false) rows.
Proof.
  revert charts. induction rows as [|row rows IH]; intros charts; simpl.
  - by intros [= <-].
  - destruct (is_sentinel (scraped_chart pair row)) as [skip|e] eqn:Es; [|done].
    apply is_sentinel_no_trading in Es. simpl in Es.
    destruct (emit_charts pair rows) as [cs|e]; [|done].
    intros [= <-]. rewrite filter_cons. rewrite (IH cs eq_refl).
    destruct (decide (no_trading (pd.cells row) = false)) as [Hn|Hn].
    + rewrite Hn in Es. by subst skip.
    + destruct skip; [done|]. by rewrite Es in Hn.
Qed.



End candles.


(** ** The reference price of a candle *)

Lemma monotonic_cons t rest :
  pd.is_monotonic_increasing (t :: rest) = true →
  Forall (λ t', (t ≤ t')%Z) rest ∧ pd.is_monotonic_increasing rest = true.
Proof.
  revert t. induction rest as [|t1 rest IH]; intros t; [done|].
  intros Hm. change (((t <=? t1)%Z && pd.is_monotonic_increasing (t1 :: rest))
                     = true) in Hm.
  apply andb_prop in Hm as [Hle Hm]. apply Z.leb_le in Hle.
  destruct (IH _ Hm) as [Hall _]. split; [|done].
  constructor; [done|]. eapply Forall_impl; [exact Hall|]. simpl. lia.
Qed.

Lemma monotonic_lookup idx i j ti tj :
  pd.is_monotonic_increasing idx = true →
  idx !! i = Some ti → idx !! j = Some tj → (i ≤ j)%nat → (ti ≤ tj)%Z.
Proof.
  revert i j. induction idx as [|t rest IH]; intros i j Hm; [done|].
  destruct (monotonic_cons _ _ Hm) as [Hall Hrest].
  destruct i as [|i], j as [|j]; simpl; intros Hi Hj Hij.
  - injection Hi as <-. injection Hj as <-. lia.
  - injection Hi as <-. eapply Forall_forall in Hall; [exact Hall|].
    by eapply list_elem_of_lookup_2.
  - lia.
  - eapply IH; eauto. lia.
Qed.

(** On a sorted index, [searchsorted(side='right')] separates the labels
    at or before [where] from those after it. *)
Lemma searchsorted_right_spec idx where_ : ∀ j t,
  pd.is_monotonic_increasing idx = true →
  idx !! j = Some t →
  (j < pd.searchsorted_right idx where_)%nat ↔ (t ≤ where_)%Z.
Proof.
  unfold pd.searchsorted_right.
  induction idx as [|t0 rest IH]; intros j t Hm; [done|].
  destruct (monotonic_cons _ _ Hm) as [Hall Hrest]. simpl.
  destruct (Z.leb_spec t0 where_) as [Hle|Hgt]; simpl.
  - destruct j as [|j]; simpl.
    + intros [= <-]. split; [done|lia].
    + intros Hj. rewrite <- (IH j t Hrest Hj). lia.
  - assert (List.filter (λ t1, (t1 <=? where_)%Z) rest = []) as ->.
    { clear IH Hm Hrest. induction Hall as [|t1 rest Ht1 _ IH']; simpl; [done|].
      destruct (Z.leb_spec t1 where_); [lia|]. apply IH'. }
    simpl. intros Hj. split; [lia|].
    assert (t0 ≤ t)%Z; [|lia].
    apply (monotonic_lookup (t0 :: rest) 0 j t0 t Hm eq_refl Hj). lia.
Qed.

Lemma skip_na_spec values loc :
  (pd.skip_na values loc ≤ loc)%nat ∧
  (∀ j, (pd.skip_na values loc < j ≤ loc)%nat →
        is_nan (nth j values nan) = true) ∧
  (pd.skip_na values loc = 0%nat ∨
   is_nan (nth (pd.skip_na values loc) values nan) = false).
Proof.
  induction loc as [|n IH]; simpl.
  - split; [done|]. split; [lia|]. by left.
  - destruct (is_nan (nth (S n) values nan)) eqn:E.
    + destruct IH as (Hle & Hna & Hend). split; [lia|]. split; [|done].
      intros j Hj. destruct (decide (j = S n)) as [->|Hne]; [done|].
      apply Hna. lia.
    + split; [done|]. split; [lia|]. by right.
Qed.

(** [asof] is the last observation carried forward. *)
Lemma asof_carried_forward s T f :
  length (pd.s_index s) = length (pd.s_values s) →
  pd.asof s T = Ok f →
  carried_forward s T f ∨ (nothing_observed s T ∧ is_nan f = true).
Proof.
  intros Hlen. unfold pd.asof.
  destruct (pd.is_monotonic_increasing (pd.s_index s)) eqn:Hm; [|done]. simpl.
  destruct (pd.s_index s) as [|start rest] eqn:Hidx; [done|].
  rewrite <- Hidx in *.
  assert (pd.s_index s !! 0%nat = Some start) as H0 by (by rewrite Hidx).
  destruct (Z.ltb_spec T start) as [Hlt|Hge].
  { intros [= <-]. right. split; [|done].
    intros j t f (Hj & _ & _).
    pose proof (monotonic_lookup _ 0 j _ _ Hm H0 Hj ltac:(lia)). lia. }
  set (cnt := pd.searchsorted_right (pd.s_index s) T).
  assert (0 < cnt)%nat as Hcnt
    by (by apply (searchsorted_right_spec _ T 0 start Hm H0)).
  destruct (Nat.ltb_spec 0 cnt) as [_|]; [|lia].
  destruct (skip_na_spec (pd.s_values s) (cnt - 1)) as (Hle & Hna & Hend).
  set (j0 := pd.skip_na (pd.s_values s) (cnt - 1)) in *.
  intros [= <-].
  assert (cnt ≤ length (pd.s_index s))%nat as Hbound.
  { unfold cnt, pd.searchsorted_right. apply List.filter_length_le. }
  destruct (lookup_lt_is_Some_2 (pd.s_index s) j0) as [t0 Ht0]; [lia|].
  destruct (lookup_lt_is_Some_2 (pd.s_values s) j0) as [f0 Hf0]; [lia|].
  rewrite (nth_lookup_Some _ _ nan _ Hf0) in *.
  assert (∀ j t f, observed_at s j t f → (t ≤ T)%Z → (j ≤ j0)%nat) as Hlast.
  { intros j t f (Hj & Hf & Hnan) Ht.
    apply (searchsorted_right_spec _ T j t Hm Hj) in Ht. fold cnt in Ht.
    destruct (decide (j ≤ j0)%nat) as [|Hgt]; [done|].
    rewrite <- (nth_lookup_Some _ _ nan _ Hf), Hna in Hnan; [done|lia]. }
  destruct (is_nan f0) eqn:Hnan.
  - right. split; [|done]. intros j t f Hobs.
    destruct (Z.lt_ge_cases T t) as [|Ht]; [done|]. exfalso.
    pose proof (Hlast j t f Hobs Ht) as Hj.
    destruct Hend as [Hz|Hz]; [|congruence].
    assert (j = j0) as -> by lia.
    destruct Hobs as (_ & Hf & Hnn). congruence.
  - left. exists j0, t0. split; [done|].
    assert (t0 ≤ T)%Z as Ht0T.
    { apply (searchsorted_right_spec _ T j0 t0 Hm Ht0). fold cnt. lia. }
    split; [done|]. intros j' t' f' Hobs Ht'.
    pose proof (Hlast j' t' f' Hobs Ht') as Hj'. split; [done|].
    destruct Hobs as (Hj & _ & _).
    by eapply (monotonic_lookup _ j' j0).
Qed.

(** X20. Whenever [contemporary_usd_price] returns a price for a row, it
    is the row's weighted average times the last observation of the
    reference [price_usd] series carried forward to the row's label [T]:
    the value of the latest sample labelled at or before [T] that carries a
    value (a NaN sample is passed over), just as the series holds it, so no
    sample labelled after [T] and no value between two samples.  When the
    series has no observation at or before [T] the factor is NaN. *)
Theorem contemporary_price_carried_forward btc_price_hist prices row p :
  pd.column btc_price_hist "price_usd" = Ok prices →
  length (pd.s_index prices) = length (pd.s_values prices) →
  contemporary_usd_price btc_price_hist row = Ok p →
  ∃ w f,
    pd.cell row "weightedAverage" = Ok w ∧
    p = (w * f)%float ∧
    (carried_forward prices (pd.name row) f ∨
     (nothing_observed prices (pd.name row) ∧ is_nan f = true)).
Proof.
  intros Hcol Hlen. unfold contemporary_usd_price. rewrite Hcol.
  destruct (pd.asof prices (pd.name row)) as [f|e] eqn:Ha; [|done].
  destruct (pd.cell row "weightedAverage") as [w|e]; [|done].
  intros [= <-]. exists w, f. split; [done|]. split; [done|].
  by apply asof_carried_forward.
Qed.

(** The reference series of [feed] holds 2500 from 00:00 and 2600 from
    00:15; a row labelled 00:07:30 is priced with 2500. *)
Lemma contemporary_price_carried_forward_witness :
  ∃ w f,
    pd.cell (pd.MkRow 1500000450000000000 [("weightedAverage", 0.125%float)])
            "weightedAverage" = Ok w ∧
    312.5%float = (w * f)%float ∧
    (carried_forward
       (pd.MkSeries (pd.df_index feed.reference) [2500; 2600]%float)
       1500000450000000000 f ∨
     (nothing_observed
        (pd.MkSeries (pd.df_index feed.reference) [2500; 2600]%float)
        1500000450000000000 ∧ is_nan f = true)).
Proof.
  exact (contemporary_price_carried_forward feed.reference
           (pd.MkSeries (pd.df_index feed.reference) [2500; 2600]%float)
           (pd.MkRow 1500000450000000000 [("weightedAverage", 0.125%float)])
           312.5%float eq_refl eq_refl eq_refl).
Defined.

(** A sample without a value is passed over: the observation before it is
    carried forward; before the first sample there is none. *)
Example asof_passes_over_missing :
  pd.asof (pd.MkSeries [10; 20; 30]%Z [100; nan; 300]%float) 25 = Ok 100%float ∧
  pd.asof (pd.MkSeries [10; 20; 30]%Z [100; nan; 300]%float) 30 = Ok 300%float ∧
  pd.asof (pd.MkSeries [10; 20; 30]%Z [100; nan; 300]%float) 5 = Ok nan.
Proof. vm_compute. done. Qed.

(** ** The reference series under [marshall] *)

Lemma assoc_set_same {A} k (v : A) kvs : assoc k (assoc_set k v kvs) = Some v.
Proof.
  induction kvs as [|[k' v'] rest IH]; simpl.
  - by rewrite String.eqb_refl.
  - destruct (String.eqb k k') eqn:E; simpl; by rewrite E.
Qed.

Lemma assoc_set_other {A} k k' (v : A) kvs :
  String.eqb k' k = false → assoc k' (assoc_set k v kvs) = assoc k' kvs.
Proof.
  intros Hne. induction kvs as [|[k0 v0] rest IH]; simpl.
  - by rewrite Hne.
  - destruct (String.eqb k k0) eqn:E; simpl.
    + apply String.eqb_eq in E as <-. by rewrite Hne.
    + destruct (String.eqb k' k0); [done|]. apply IH.
Qed.

Lemma assoc_filter_kept {A} (keep : string * A → bool) c kvs :
  (∀ v, keep (c, v) = true) →
  assoc c (List.filter keep kvs) = assoc c kvs.
Proof.
  intros Hc. induction kvs as [|[k v] rest IH]; simpl; [done|].
  destruct (String.eqb c k) eqn:E.
  - apply String.eqb_eq in E as <-. rewrite Hc. simpl.
    by rewrite String.eqb_refl.
  - destruct (keep (k, v)); simpl; [rewrite E|]; apply IH.
Qed.

Lemma assoc_filter_dropped {A} (keep : string * A → bool) c kvs :
  (∀ v, keep (c, v) = false) →
  assoc c (List.filter keep kvs) = None.
Proof.
  intros Hc. induction kvs as [|[k v] rest IH]; simpl; [done|].
  destruct (keep (k, v)) eqn:Ek; simpl; [|done].
  destruct (String.eqb c k) eqn:E; [|done].
  apply String.eqb_eq in E as <-. by rewrite Hc in Ek.
Qed.

Lemma assoc_rename_other old new c (cols : list (string * list float)) :
  String.eqb c old = false → String.eqb c new = false →
  assoc c ((λ kv : string * list float,
              (if String.eqb kv.1 old then new else kv.1, kv.2)) <$> cols)
  = assoc c cols.
Proof.
  intros Ho Hn. induction cols as [|[k v] rest IH]; simpl; [done|].
  destruct (String.eqb k old) eqn:E.
  - apply String.eqb_eq in E as ->. by rewrite Hn, Ho.
  - by destruct (String.eqb c k).
Qed.

Lemma assoc_rename_old old new (cols : list (string * list float)) :
  String.eqb old new = false →
  assoc old ((λ kv : string * list float,
                (if String.eqb kv.1 old then new else kv.1, kv.2)) <$> cols)
  = None.
Proof.
  intros Hne. induction cols as [|[k v] rest IH]; simpl; [done|].
  destruct (String.eqb k old) eqn:E.
  - by rewrite Hne.
  - rewrite String.eqb_sym, E. done.
Qed.

Lemma assoc_rename_new old new (cols : list (string * list float)) :
  assoc new cols = None →
  assoc new ((λ kv : string * list float,
                (if String.eqb kv.1 old then new else kv.1, kv.2)) <$> cols)
  = assoc old cols.
Proof.
  induction cols as [|[k v] rest IH]; simpl; [done|].
  destruct (String.eqb new k) eqn:En; [done|]. intros Hr.
  destruct (String.eqb k old) eqn:E.
  - apply String.eqb_eq in E as ->. by rewrite !String.eqb_refl.
  - rewrite En, String.eqb_sym, E. by apply IH.
Qed.

Lemma assoc_row_at df c i t :
  assoc c (pd.cells (pd.row_at df i t))
  = (λ vs, nth i vs nan) <$> assoc c (pd.df_columns df).
Proof.
  unfold pd.row_at. simpl.
  induction (pd.df_columns df) as [|[k v] rest IH]; simpl; [done|].
  by destruct (String.eqb c k).
Qed.

Lemma column_Ok df c s :
  pd.column df c = Ok s →
  assoc c (pd.df_columns df) = Some (pd.s_values s) ∧ pd.s_index s = pd.df_index df.
Proof.
  unfold pd.column. destruct (assoc c (pd.df_columns df)); [|done].
  by intros [= <-].
Qed.

Lemma assoc_elem_of {A} k (v : A) kvs : assoc k kvs = Some v → (k, v) ∈ kvs.
Proof.
  induction kvs as [|[k' v'] rest IH]; simpl; [done|].
  destruct (String.eqb k k') eqn:E.
  - apply String.eqb_eq in E as <-. intros [= <-]. by left.
  - intros Hr. right. by apply IH.
Qed.

(** C6, as the code has it.  Every row of the reference series after
    [marshall(btc_price_hist, key='price_usd')], written under the pair
    USD_BTC at the second of its index label, has [volume] equal to
    [volume_usd / (price_usd / price_btc)] of the original row, no
    [market_cap_by_available_supply] and no [volume_usd]; its [price_btc] is
    kept, and the original [price_usd] is carried under the name
    [weightedAverage], so the row has no field named [price_usd]. *)
Theorem marshall_reference_rows hist out i chart :
  Forall (λ c, length c.2 = length (pd.df_index hist)) (pd.df_columns hist) →
  marshall hist "price_usd" = Ok out →
  (scraped_chart "USD_BTC" <$> pd.iterrows out) !! i = Some chart →
  ∃ price_usd price_btc volume_usd,
    value_at hist "price_usd" i = Some price_usd ∧
    value_at hist "price_btc" i = Some price_btc ∧
    value_at hist "volume_usd" i = Some volume_usd ∧
    currencyPair chart = "USD_BTC" ∧
    format_time <$> pd.df_index hist !! i = Some (chart_time chart) ∧
    assoc "volume" (fields chart)
      = Some (volume_usd / (price_usd / price_btc))%float ∧
    assoc "market_cap_by_available_supply" (fields chart) = None ∧
    assoc "volume_usd" (fields chart) = None ∧
    assoc "price_btc" (fields chart) = Some price_btc ∧
    assoc "price_usd" (fields chart) = None ∧
    (assoc "weightedAverage" (pd.df_columns hist) = None →
     assoc "weightedAverage" (fields chart) = Some price_usd).
Proof.
  intros Hwf. unfold marshall.
  destruct (pd.column hist "price_usd") as [s_pu|e] eqn:Hpu; [|done].
  destruct (pd.column hist "price_btc") as [s_pb|e] eqn:Hpb; [|done].
  destruct (pd.column hist "volume_usd") as [s_vu|e] eqn:Hvu; [|done].
  destruct (pd.drop _ _) as [dropped|e] eqn:Hdrop; [|done].
  apply drop_Ok in Hdrop. subst dropped. intros [= <-].
  apply column_Ok in Hpu as [Hpu _], Hpb as [Hpb _], Hvu as [Hvu _].
  rewrite list_lookup_fmap. unfold pd.iterrows. rewrite list_lookup_imap.
  simpl. destruct (pd.df_index hist !! i) as [t|] eqn:Hi; [|done].
  simpl. intros [= <-].
  assert (∀ c vs, assoc c (pd.df_columns hist) = Some vs →
                  ∃ v, vs !! i = Some v ∧ nth i vs nan = v) as Hat.
  { intros c vs Hc. apply assoc_elem_of in Hc.
    eapply Forall_forall in Hwf; [|exact Hc]. simpl in Hwf.
    destruct (lookup_lt_is_Some_2 vs i) as [v Hv].
    { rewrite Hwf. by eapply lookup_lt_Some. }
    exists v. split; [done|]. by apply nth_lookup_Some. }
  destruct (Hat _ _ Hpu) as (pu & Hpu_i & Hpu_n).
  destruct (Hat _ _ Hpb) as (pb & Hpb_i & Hpb_n).
  destruct (Hat _ _ Hvu) as (vu & Hvu_i & Hvu_n).
  exists pu, pb, vu. unfold value_at. rewrite Hpu, Hpb, Hvu.
  split; [done|]. split; [done|]. split; [done|]. split; [done|].
  split; [done|].
  unfold scraped_chart. cbn [fields]. rewrite !assoc_row_at.
  unfold pd.rename. cbn [pd.df_columns pd.df_index].
  split; [|split; [|split; [|split; [|split]]]].
  - rewrite assoc_rename_other by done.
    rewrite assoc_filter_kept by done.
    unfold pd.set_column. cbn [pd.df_columns]. rewrite assoc_set_same.
    cbn [fmap option_fmap option_map pd.series_div pd.s_values].
    f_equal. apply nth_lookup_Some.
    rewrite lookup_zip_with, Hvu_i. simpl.
    by rewrite lookup_zip_with, Hpu_i, Hpb_i.
  - rewrite assoc_rename_other by done.
    by rewrite assoc_filter_dropped.
  - rewrite assoc_rename_other by done.
    by rewrite assoc_filter_dropped.
  - rewrite assoc_rename_other by done.
    rewrite assoc_filter_kept by done.
    unfold pd.set_column. cbn [pd.df_columns].
    rewrite assoc_set_other by done. rewrite Hpb. simpl. by rewrite Hpb_n.
  - by rewrite assoc_rename_old.
  - intros Hnone. rewrite assoc_rename_new.
    + rewrite assoc_filter_kept by done.
      unfold pd.set_column. cbn [pd.df_columns].
      rewrite assoc_set_other by done. rewrite Hpu. simpl. by rewrite Hpu_n.
    + rewrite assoc_filter_kept by done.
      unfold pd.set_column. cbn [pd.df_columns].
      by rewrite assoc_set_other.
Qed.

(** The first row of the reference series of [feed], as it is written. *)
Lemma marshall_reference_rows_witness :
  ∃ price_usd price_btc volume_usd,
    value_at feed.reference "price_usd" 0 = Some price_usd ∧
    value_at feed.reference "price_btc" 0 = Some price_btc ∧
    value_at feed.reference "volume_usd" 0 = Some volume_usd ∧
    currencyPair
      (MkChart "scrapedChart" "USD_BTC" 1500000000000000000
         [("price_btc", 1%float); ("weightedAverage", 2500%float);
          ("volume", 400000%float)]) = "USD_BTC" ∧
    format_time <$> pd.df_index feed.reference !! 0%nat
      = Some 1500000000000000000%Z ∧
    Some 400000%float = Some (volume_usd / (price_usd / price_btc))%float ∧
    @None float = None ∧
    @None float = None ∧
    Some 1%float = Some price_btc ∧
    @None float = None ∧
    (assoc "weightedAverage" (pd.df_columns feed.reference) = None →
     Some 2500%float = Some price_usd).
Proof.
  exact (marshall_reference_rows feed.reference
           (pd.Frame (pd.df_index feed.reference)
              [("price_btc", [1; 1]%float);
               ("weightedAverage", [2500; 2600]%float);
               ("volume", [400000; 500000]%float)])
           0
           (MkChart "scrapedChart" "USD_BTC" 1500000000000000000
              [("price_btc", 1%float); ("weightedAverage", 2500%float);
               ("volume", 400000%float)])
           ltac:(repeat constructor) eq_refl eq_refl).
Defined.

(** C6, as the claim words it, fails: the rows written under USD_BTC carry
    [weightedAverage], [volume] and [price_btc], and no [price_usd]. *)
Lemma marshalled_rows_lack_price_usd :
  ∃ out,
    marshall feed.reference "price_usd" = Ok out ∧
    ¬ Forall (λ chart,
                is_Some (assoc "weightedAverage" (fields chart)) ∧
                is_Some (assoc "volume" (fields chart)) ∧
                is_Some (assoc "price_usd" (fields chart)))
             (scraped_chart "USD_BTC" <$> pd.iterrows out).
Proof.
  eexists. split; [vm_compute; reflexivity|].
  intros Hall. apply Forall_inv in Hall as (_ & _ & [v Hv]).
  vm_compute in Hv. discriminate.
Qed.

(** ** The price of a candle, on the host's clock *)

Lemma assoc_app_new {A} k (v : A) kvs :
  assoc k kvs = None → assoc k (kvs ++ [(k, v)]) = Some v.
Proof.
  intros Habs. rewrite <- (assoc_set_absent _ _ _ Habs). apply assoc_set_same.
Qed.

Section host_clock.
Context `{!Upstream}.

(** The rows [historical_prices_of] prices: they are labelled with
    [fromtimestamp] of the candles' dates. *)
Lemma historical_prices_rows hist pair period start end_ raw dates charts :
  returnChartData pair period start end_ = Ok raw →
  assoc "price_usd" (pd.df_columns raw) = None →
  pd.column raw "date" = Ok dates →
  historical_prices_of hist pair period start end_ = Ok charts →
  ∃ ts_df prices,
    pd.df_index ts_df = fromtimestamp <$> pd.s_values dates ∧
    assoc "price_usd" (pd.df_columns ts_df) = None ∧
    Forall2 (λ candle p, contemporary_usd_price hist candle = Ok p)
            (pd.iterrows ts_df) prices ∧
    charts = scraped_chart pair
               <$> filter (λ row, no_trading (pd.cells row) = false)
                          (zip_with priced (pd.iterrows ts_df) prices).
Proof.
  intros Hfetch Habs Hd. unfold historical_prices_of. rewrite Hfetch, Hd.
  destruct (pd.drop _ _) as [ts_df|e] eqn:Hdrop; [|done].
  unfold pd.apply_rows.
  destruct (pd.mapM _ (pd.iterrows ts_df)) as [prices|e] eqn:Hm; [|done].
  intros Hemit. exists ts_df, prices.
  apply mapM_Forall2 in Hm.
  assert (assoc "price_usd" (pd.df_columns ts_df) = None) as Habs'.
  { rewrite (drop_Ok _ _ _ Hdrop). simpl. by apply assoc_filter_absent. }
  assert (length prices = length (pd.df_index ts_df)) as Hlen.
  { rewrite <- iterrows_length. symmetry. by eapply Forall2_length. }
  rewrite iterrows_set_column in Hemit by done.
  apply emit_charts_filter in Hemit. simpl in Hemit.
  split; [by rewrite (drop_Ok _ _ _ Hdrop)|]. done.
Qed.

(** C5, as the code has it.  The price written for a candle is its
    weighted average times the reference series carried forward, not to
    the candle's time, but to [datetime.fromtimestamp] of its [date]: the
    reading of that time on the clock of the host, in its local zone.  The
    index of the reference series holds UTC.  On a host ahead of UTC the
    factor is therefore taken from the last sample up to the zone's offset
    after the candle's time. *)
Theorem candle_priced_at_host_time hist prices pair period start end_
    raw dates charts :
  returnChartData pair period start end_ = Ok raw →
  assoc "price_usd" (pd.df_columns raw) = None →
  pd.column raw "date" = Ok dates →
  pd.column hist "price_usd" = Ok prices →
  length (pd.s_index prices) = length (pd.s_values prices) →
  historical_prices_of hist pair period start end_ = Ok charts →
  Forall (λ chart,
            ∃ date w f,
              date ∈ pd.s_values dates ∧
              chart_time chart = format_time (fromtimestamp date) ∧
              assoc "weightedAverage" (fields chart) = Some w ∧
              assoc "price_usd" (fields chart) = Some (w * f)%float ∧
              (carried_forward prices (fromtimestamp date) f ∨
               (nothing_observed prices (fromtimestamp date) ∧
                is_nan f = true)))
         charts.
Proof.
  intros Hfetch Habs Hd Hcol Hlen Hrun.
  destruct (historical_prices_rows _ _ _ _ _ _ _ _ Hfetch Habs Hd Hrun)
    as (ts_df & ps & Hidx & Habs' & Hps & ->).
  apply Forall_fmap, Forall_forall.
  intros row' [_ Hin]%list_elem_of_filter.
  apply elem_of_lookup_zip_with in Hin as (i & row & p & -> & Hrow & Hp).
  pose proof (Forall2_lookup_lr _ _ _ _ _ _ Hps Hrow Hp) as Hprice.
  unfold pd.iterrows in Hrow. rewrite list_lookup_imap in Hrow.
  destruct (pd.df_index ts_df !! i) as [t|] eqn:Ht; [|done].
  injection Hrow as <-.
  rewrite Hidx, list_lookup_fmap in Ht.
  destruct (pd.s_values dates !! i) as [date|] eqn:Hdate; [|done].
  injection Ht as <-.
  revert Hprice. unfold contemporary_usd_price. rewrite Hcol. simpl.
  destruct (pd.asof prices (fromtimestamp date)) as [f|e] eqn:Ha; [|done].
  unfold pd.cell.
  destruct (assoc "weightedAverage" (pd.cells (pd.row_at ts_df i _)))
    as [w|] eqn:Hw; [|done].
  intros [= <-]. exists date, w, f.
  split; [by eapply list_elem_of_lookup_2|]. split; [done|].
  split; [by rewrite assoc_app_other|]. split.
  - apply assoc_app_new.
    pose proof (assoc_row_at ts_df "price_usd" i (fromtimestamp date)) as Hr.
    rewrite Habs' in Hr. exact Hr.
  - by apply asof_carried_forward.
Qed.

End host_clock.

(** On the host an hour ahead of UTC, the candle of 00:00:00 UTC is priced
    with the factor 2600 that the reference series holds from 00:15:00 UTC
    on. *)
Lemma candle_priced_at_host_time_witness :
  ∃ date w f,
    date ∈ [1500000000; 1500000450; 1500000900]%float ∧
    1500003600000000000%Z = format_time (@fromtimestamp feed.eastern date) ∧
    Some 0.0625%float = Some w ∧
    Some 162.5%float = Some (w * f)%float ∧
    (carried_forward
       (pd.MkSeries (pd.df_index feed.reference) [2500; 2600]%float)
       (@fromtimestamp feed.eastern date) f ∨
     (nothing_observed
        (pd.MkSeries (pd.df_index feed.reference) [2500; 2600]%float)
        (@fromtimestamp feed.eastern date) ∧ is_nan f = true)).
Proof.
  exact (Forall_inv
           (@candle_priced_at_host_time feed.eastern feed.reference
              (pd.MkSeries (pd.df_index feed.reference) [2500; 2600]%float)
              "BTC_ETH" 900 1499999100%float 1500001800%float feed.candles
              (pd.MkSeries (pd.df_index feed.candles)
                 [1500000000; 1500000450; 1500000900]%float)
              [MkChart "scrapedChart" "BTC_ETH" 1500003600000000000
                 [("close", 0.0625%float); ("volume", 12%float);
                  ("weightedAverage", 0.0625%float);
                  ("price_usd", 162.5%float)];
               MkChart "scrapedChart" "BTC_ETH" 1500004500000000000
                 [("close", 0.125%float); ("volume", 7.5%float);
                  ("weightedAverage", 0.125%float);
                  ("price_usd", 325%float)]]
              eq_refl eq_refl eq_refl eq_refl eq_refl
              ltac:(vm_compute; reflexivity))).
Defined.

(** The same candle on the two hosts.  Its time is 00:00:00 UTC, where the
    reference series holds 2500; the sample of 2600 is fifteen minutes
    later.  The host on UTC writes 0.0625 * 2500, the host an hour ahead
    writes 0.0625 * 2600. *)
Example eastern_host_uses_a_later_sample :
  pd.asof (pd.MkSeries (pd.df_index feed.reference) [2500; 2600]%float)
          1500000000000000000 = Ok 2500%float ∧
  (∃ rest,
     @historical_prices_of feed.healthy feed.reference "BTC_ETH" 900
       1499999100 1500001800
     = Ok (MkChart "scrapedChart" "BTC_ETH" 1500000000000000000
             [("close", 0.0625%float); ("volume", 12%float);
              ("weightedAverage", 0.0625%float);
              ("price_usd", 156.25%float)] :: rest)) ∧
  (∃ rest,
     @historical_prices_of feed.eastern feed.reference "BTC_ETH" 900
       1499999100 1500001800
     = Ok (MkChart "scrapedChart" "BTC_ETH" 1500003600000000000
             [("close", 0.0625%float); ("volume", 12%float);
              ("weightedAverage", 0.0625%float);
              ("price_usd", 162.5%float)] :: rest)).
Proof.
  split; [vm_compute; reflexivity|].
  split; eexists; vm_compute; reflexivity.
Qed.


Example demo_copy_reads_the_same :
  ∃ h2 c,
    deepcopy 1000 (VRef 1) demo.adapter_heap = (h2, Ok c) ∧
    resolve demo.adapter_heap (VRef 1) [Key "balances"; Key "BTC"]
      = Some (VAtom (AFloat 1.5)) ∧
    resolve h2 c [Key "balances"; Key "BTC"] = Some (VAtom (AFloat 1.5)) ∧
    resolve demo.adapter_heap (VRef 1) [Key "balances"] = Some (VRef 2) ∧
    resolve h2 c [Key "balances"] = Some (VRef 7).
Proof. do 2 eexists. vm_compute. done. Qed.

(* ===================================================================== *)
(** * Part III: further properties of the code                            *)
(* ===================================================================== *)

(** ** [Fund.step]: the order of the calls, and failures *)

Section step_calls.
Context `{!Runtime, !MarketAdapter, !Strategy}.

(** X1. A step that returns has made its calls in one order: the adapter's
    market state, the strategy (on the copy, and with the adapter's market
    history), the execution when there are proposals, the valuation, each
    once and nothing else; its value is what the valuation returned. *)
Theorem step_call_sequence t w w' log usd :
  step t w = (w', log, Ok usd) →
  ∃ w1 ms h2 c trades w3 w4,
    get_market_state t w = (w1, Ok ms) ∧
    deepcopy frames_left ms (w_heap w1) = (h2, Ok c) ∧
    consult c (World h2 (w_clock w1))
      = (w3, [EProposeTrades c market_history], Ok trades) ∧
    match trades with
    | [] => w4 = w3
    | _ :: _ => filter_and_execute trades w3 = (w4, Ok tt)
    end ∧
    estimate_total_value_usd w4 = (w', Ok usd) ∧
    log = [EGetMarketState t; EProposeTrades c market_history]
          ++ match trades with
             | [] => []
             | _ :: _ => [EFilterAndExecute trades]
             end
          ++ [EEstimateTotalValue].
Proof.
  unfold step, snapshot, consult, execute, on_heap, invoke,
    mbind, Run_bind, mret, Run_ret, bind, ret.
  destruct (get_market_state t w) as [w1 [ms|e]] eqn:Hg; [|done].
  destruct (deepcopy frames_left ms (w_heap w1)) as [h2 [c|e]] eqn:Hc;
    [|done].
  cbn [app]. destruct (proposed (propose_trades c _ _)) as [[|tr trs]|e] eqn:Hp;
    [| |done].
  - destruct (estimate_total_value_usd _) as [w4 [usd'|e]] eqn:He; [|done].
    intros [= <- <- <-]. eexists w1, ms, h2, c, [], _, _.
    split; [done|]. split; [exact Hc|]. split; [by rewrite Hp|].
    split; [done|]. split; [exact He|]. done.
  - destruct (filter_and_execute _ _) as [w4 [[]|e]] eqn:Hf; [|done].
    destruct (estimate_total_value_usd w4) as [w5 [usd'|e]] eqn:He; [|done].
    intros [= <- <- <-]. eexists w1, ms, h2, c, (tr :: trs), _, w4.
    split; [done|]. split; [exact Hc|]. split; [by rewrite Hp|].
    split; [exact Hf|]. split; [exact He|]. done.
Qed.

(** X2. A step that raises stopped at the call that raised: the exception
    is that call's, the world is the one that call left, and no later call
    was made.  In particular no order is executed after the strategy
    raised, and no valuation is read after an execution failed. *)
Theorem step_stops_at_first_failure t w w' log e :
  step t w = (w', log, Raise e) →
  (get_market_state t w = (w', Raise e) ∧ log = [EGetMarketState t]) ∨
  (∃ w1 ms h2,
     get_market_state t w = (w1, Ok ms) ∧
     deepcopy frames_left ms (w_heap w1) = (h2, Raise e) ∧
     w' = World h2 (w_clock w1) ∧ log = [EGetMarketState t]) ∨
  (∃ w2 c,
     consult c w2 = (w', [EProposeTrades c market_history], Raise e) ∧
     log = [EGetMarketState t; EProposeTrades c market_history]) ∨
  (∃ w3 c trades,
     trades ≠ [] ∧
     filter_and_execute trades w3 = (w', Raise e) ∧
     log = [EGetMarketState t; EProposeTrades c market_history;
            EFilterAndExecute trades]) ∨
  (∃ w4 log4,
     estimate_total_value_usd w4 = (w', Raise e) ∧
     log = log4 ++ [EEstimateTotalValue] ∧
     EEstimateTotalValue ∉ log4).
Proof.
  unfold step, snapshot, consult, execute, on_heap, invoke,
    mbind, Run_bind, mret, Run_ret, bind, ret.
  destruct (get_market_state t w) as [w1 [ms|e1]] eqn:Hg;
    [|by intros [= <- <- <-]; left].
  destruct (deepcopy frames_left ms (w_heap w1)) as [h2 [c|e2]] eqn:Hc.
  2:{ intros [= <- <- <-]. right; left. by exists w1, ms, h2. }
  cbn [app]. destruct (proposed (propose_trades c _ _)) as [[|tr trs]|e3] eqn:Hp.
  - destruct (estimate_total_value_usd _) as [w4 [usd|e4]] eqn:He; [done|].
    intros [= <- <- <-]. do 4 right.
    eexists _, [EGetMarketState t; EProposeTrades c market_history].
    split; [exact He|]. split; [done|].
    intros Hin. repeat (apply elem_of_cons in Hin as [Hin|Hin]; [done|]).
    by apply elem_of_nil in Hin.
  - destruct (filter_and_execute _ _) as [w4 [[]|e4]] eqn:Hf.
    + destruct (estimate_total_value_usd w4) as [w5 [usd|e5]] eqn:He; [done|].
      intros [= <- <- <-]. do 4 right.
      eexists w4, [EGetMarketState t; EProposeTrades c market_history;
                   EFilterAndExecute (tr :: trs)].
      split; [exact He|]. split; [done|].
      intros Hin. repeat (apply elem_of_cons in Hin as [Hin|Hin]; [done|]).
      by apply elem_of_nil in Hin.
    + intros [= <- <- <-]. do 3 right. left.
      eexists _, c, (tr :: trs). split; [done|]. split; [exact Hf|done].
  - intros [= <- <- <-]. do 2 right. left.
    eexists (World h2 (w_clock w1)), c. split; [|done]. by rewrite Hp.
Qed.

End step_calls.

Lemma step_call_sequence_witness :
  ∃ w1 ms h2 c trades w3 w4,
    @get_market_state demo.adapter (Stamp 0) demo.world0 = (w1, Ok ms) ∧
    deepcopy (@frames_left demo.runtime) ms (w_heap w1) = (h2, Ok c) ∧
    @consult demo.adapter demo.trader c (World h2 (w_clock w1))
      = (w3, [EProposeTrades c (VRef 5)], Ok trades) ∧
    match trades with
    | [] => w4 = w3
    | _ :: _ => @filter_and_execute demo.adapter trades w3 = (w4, Ok tt)
    end ∧
    @estimate_total_value_usd demo.adapter w4
      = ((@step demo.runtime demo.adapter demo.trader (Stamp 0) demo.world0).1.1,
         Ok 2500%float) ∧
    (@step demo.runtime demo.adapter demo.trader (Stamp 0) demo.world0).1.2
    = [EGetMarketState (Stamp 0); EProposeTrades c (VRef 5)]
      ++ match trades with
         | [] => []
         | _ :: _ => [EFilterAndExecute trades]
         end
      ++ [EEstimateTotalValue].
Proof.
  set (Y := @step demo.runtime demo.adapter demo.trader (Stamp 0) demo.world0).
  assert (Y = (Y.1.1, Y.1.2, Ok 2500%float)) as HY by (vm_compute; reflexivity).
  exact (@step_call_sequence demo.runtime demo.adapter demo.trader
           (Stamp 0) demo.world0 _ _ _ HY).
Defined.

(** With the exchange that rejects every order, the step of the trading
    strategy ends in the exchange's exception and reads no valuation. *)
Lemma step_stops_at_first_failure_witness :
  EEstimateTotalValue ∉
    (@step demo.runtime faulty.rejecting demo.trader (Stamp 0) demo.world0).1.2.
Proof.
  set (Y := @step demo.runtime faulty.rejecting demo.trader (Stamp 0) demo.world0).
  assert (Y = (Y.1.1, Y.1.2, Raise (ExternalError "exchange"))) as HY
    by (vm_compute; reflexivity).
  destruct (@step_stops_at_first_failure demo.runtime faulty.rejecting
              demo.trader (Stamp 0) demo.world0 _ _ _ HY)
    as [[_ Hlog]|[(w1 & ms & h2 & _ & _ & _ & Hlog)
       |[(w2 & c & _ & Hlog)|[(w3 & c & trades & _ & _ & Hlog)
       |(w4 & log4 & He & _ & _)]]]].
  - rewrite Hlog. intros Hin. apply list_elem_of_singleton in Hin. done.
  - rewrite Hlog. intros Hin. apply list_elem_of_singleton in Hin. done.
  - rewrite Hlog. intros Hin.
    repeat (apply elem_of_cons in Hin as [Hin|Hin]; [done|]).
    by apply elem_of_nil in Hin.
  - rewrite Hlog. intros Hin.
    repeat (apply elem_of_cons in Hin as [Hin|Hin]; [done|]).
    by apply elem_of_nil in Hin.
  - exfalso. revert He. simpl. unfold demo.balance_of.
    destruct (w_heap w4 !! 2%positive) as [[?|kvs]|]; try done.
    destruct (assoc "BTC" kvs) as [[[]|]|]; done.
Defined.

(** ** [Fund.begin_backtest]: where it stops, and how many steps it takes *)

Section backtest_more.
Context `{!Runtime, !MarketAdapter, !Strategy}.

Lemma backtest_over_failure dates : ∀ w w' log e,
  backtest_over dates w = (w', log, Raise e) →
  ∃ before date after w_k log_k,
    dates = before ++ date :: after ∧
    stepped_at log = Stamp <$> (before ++ [date]) ∧
    length (yielded log) = length before ∧
    step (Stamp date) w_k = (w', log_k, Raise e).
Proof.
  induction dates as [|date rest IH]; intros w w' log e; simpl; [done|].
  unfold mbind, Run_bind, bind, emit.
  destruct (step_log (Stamp date) w) as [Hst Hy].
  destruct (step (Stamp date) w) as [[w1 log1] [usd|e1]] eqn:Hstep;
    cbn [fst snd] in *.
  - destruct (backtest_over rest w1) as [[w2 log2] [[]|e2]] eqn:Hrest; [done|].
    intros [= <- <- <-].
    destruct (IH _ _ _ _ Hrest)
      as (before & d & after & w_k & log_k & -> & Hlog & Hlen & Hk).
    exists (date :: before), d, after, w_k, log_k.
    split; [done|].
    change (log1 ++ EYield usd :: log2) with (log1 ++ [EYield usd] ++ log2).
    rewrite !stepped_at_app, !yielded_app, Hst, Hy, Hlog.
    split; [done|]. split; [|done]. cbn. by rewrite Hlen.
  - intros [= <- <- <-]. exists [], date, rest, w, log1.
    split; [done|]. split; [done|]. split; [by rewrite Hy|done].
Qed.

(** X3. A backtest that raises either failed while its dates were built
    (a time or a frequency pandas refuses), before any step and with the
    world as it was, or stopped in one step: the exception is that step's,
    the world is the one it left, the timestamps stepped through are the
    dates up to that step's, and a value was yielded for every timestamp
    before it and none for it. *)
Theorem begin_backtest_stops_at_failure start_time end_time w w' log e :
  begin_backtest start_time end_time w = (w', log, Raise e) →
  (w' = w ∧ log = [] ∧
   (pd.Timestamp start_time = Raise e ∨ pd.Timestamp end_time = Raise e ∨
    pd.date_range start_time end_time trade_interval = Raise e)) ∨
  (∃ dates before date after w_k log_k,
     pd.date_range start_time end_time trade_interval = Ok dates ∧
     dates = before ++ date :: after ∧
     stepped_at log = Stamp <$> (before ++ [date]) ∧
     length (yielded log) = length before ∧
     step (Stamp date) w_k = (w', log_k, Raise e)).
Proof.
  unfold begin_backtest, raise.
  destruct (pd.Timestamp start_time) as [s|e1] eqn:Hs.
  2:{ intros [= <- <- <-]. left. auto. }
  destruct (pd.Timestamp end_time) as [e_|e2] eqn:He.
  2:{ intros [= <- <- <-]. left. auto. }
  apply Timestamp_Ok in Hs as ->. apply Timestamp_Ok in He as ->.
  destruct (pd.date_range start_time end_time trade_interval)
    as [dates|e3] eqn:Hd.
  2:{ intros [= <- <- <-]. left. auto. }
  intros Hrun. right.
  destruct (backtest_over_failure _ _ _ _ _ Hrun)
    as (before & date & after & w_k & log_k & Hdates & Hrest).
  by exists dates, before, date, after, w_k, log_k.
Qed.



End backtest_more.

(** With the adapter that stops answering after the first step, the
    hourly backtest of [demo] stops in its second step, having yielded
    one value. *)
Lemma begin_backtest_stops_at_failure_witness :
  ∃ date w_k log_k,
    stepped_at (@begin_backtest demo.runtime faulty.tiring demo.trader
                  0 7200000000000 demo.world0).1.2
    = Stamp <$> [0%Z; date] ∧
    @step demo.runtime faulty.tiring demo.trader (Stamp date) w_k
    = ((@begin_backtest demo.runtime faulty.tiring demo.trader
          0 7200000000000 demo.world0).1.1,
       log_k, Raise (ExternalError "adapter")).
Proof.
  set (X := @begin_backtest demo.runtime faulty.tiring demo.trader
              0 7200000000000 demo.world0).
  assert (X = (X.1.1, X.1.2, Raise (ExternalError "adapter"))) as HX
    by (vm_compute; reflexivity).
  destruct (@begin_backtest_stops_at_failure demo.runtime faulty.tiring
              demo.trader 0 7200000000000 demo.world0 _ _ _ HX)
    as [(_ & Hlog & _)
       |(dates & before & date & after & w_k & log_k
         & _ & _ & Hstepped & Hlen & Hstep)].
  - exfalso. revert Hlog. vm_compute. discriminate.
  - exists date, w_k, log_k. split; [|exact Hstep].
    rewrite Hstepped. f_equal.
    destruct before as [|d0 [|d1 rest]].
    + revert Hlen. vm_compute. discriminate.
    + revert Hstepped. vm_compute. by intros [= <- _].
    + revert Hlen. vm_compute. discriminate.
Defined.


(** ** [Fund.run_live]: what can stop it *)


Section live_more.
Context `{!Runtime, !MarketAdapter, !Strategy}.



End live_more.



(** ** [market_cap] and [marshall]: shapes and failures *)

Lemma assoc_fmap_snd {A B} (g : A → B) k (kvs : list (string * A)) :
  assoc k ((λ kv : string * A, (kv.1, g kv.2)) <$> kvs) = g <$> assoc k kvs.
Proof.
  induction kvs as [|[k' v] rest IH]; simpl; [done|].
  by destruct (String.eqb k k').
Qed.

Lemma mapM_is_ok {A B} (f : A → result B) xs :
  is_ok (pd.mapM f xs) = true ↔ Forall (λ x, is_ok (f x) = true) xs.
Proof.
  induction xs as [|x xs IH]; simpl; [done|].
  rewrite Forall_cons, <- IH.
  destruct (f x) as [y|e]; simpl; [|by intuition].
  destruct (pd.mapM f xs) as [ys|e]; simpl; by intuition.
Qed.

Lemma fit_column_Ok n kv c :
  pd.fit_column n kv = Ok c →
  c.1 = kv.1 ∧ length c.2 = n ∧
  ((length kv.2 = n ∧ c.2 = kv.2) ∨ (∃ v, kv.2 = [v] ∧ c.2 = replicate n v)).
Proof.
  unfold pd.fit_column. destruct (Nat.eqb_spec (length kv.2) n) as [Hn|Hn].
  - intros [= <-]. auto.
  - destruct kv as [k [|v [|v' vs]]]; simpl; try done.
    intros [= <-]. simpl. rewrite length_replicate.
    split; [done|]. split; [done|]. right. by exists v.
Qed.

Lemma fit_column_is_ok n kv :
  is_ok (pd.fit_column n kv) = true ↔ length kv.2 = n ∨ length kv.2 = 1%nat.
Proof.
  unfold pd.fit_column. destruct (Nat.eqb_spec (length kv.2) n) as [Hn|Hn].
  - simpl. by intuition.
  - destruct kv as [k [|v [|v' vs]]]; simpl in *; intuition (done || lia).
Qed.

Lemma assoc_Forall2 {A B} (R : A → B → Prop) k (kvs : list (string * A))
    (kvs' : list (string * B)) v :
  Forall2 (λ kv kv', kv'.1 = kv.1 ∧ R kv.2 kv'.2) kvs kvs' →
  assoc k kvs = Some v → ∃ v', assoc k kvs' = Some v' ∧ R v v'.
Proof.
  induction 1 as [|[k1 v1] [k2 v2] kvs kvs' [Hk Hv] _ IH]; simpl; [done|].
  simpl in Hk. subst k2. destruct (String.eqb k k1); [|done].
  intros [= <-]. eauto.
Qed.

Lemma mapM_to_datetime {A} (g : A → Z) xs :
  (is_ok (pd.mapM (λ x, pd.to_datetime (g x)) xs) = true ↔
   Forall (λ x, pd.fits_int64 (g x) = true) xs) ∧
  ∀ ts, pd.mapM (λ x, pd.to_datetime (g x)) xs = Ok ts → ts = g <$> xs.
Proof.
  split.
  - rewrite mapM_is_ok. apply Forall_iff. intros x. unfold pd.to_datetime.
    by destruct (pd.fits_int64 (g x)).
  - induction xs as [|x xs IH]; intros ts; simpl; [by intros [= <-]|].
    unfold pd.to_datetime at 1. destruct (pd.fits_int64 (g x)); [|done].
    destruct (pd.mapM _ xs) as [ts'|e]; [|done].
    intros [= <-]. by rewrite (IH ts' eq_refl).
Qed.

(** X8. [market_cap] returns a frame exactly when the times of the first
    field of the response, in nanoseconds, fit 64 bits and every field has
    as many samples as the first field, or one sample.  The frame has the
    fields of the response for its columns, every column as long as the
    index; the index is the times of the first field alone, multiplied by a
    million, the times listed under the other fields being ignored; a
    column holds its field's values in their order, and the single value
    of a field with one sample repeated over the index. *)
Theorem market_cap_frame hist_ticker :
  let first := match hist_ticker with
               | [] => []
               | (_, vals) :: _ => vals
               end in
  let ts := (λ t : Z * float, (t.1 * 1000000)%Z) <$> first in
  (is_ok (market_cap hist_ticker) = true ↔
   Forall (λ t : Z * float, pd.fits_int64 (t.1 * 1000000) = true) first ∧
   Forall (λ kv, length kv.2 = length first ∨ length kv.2 = 1%nat)
          hist_ticker) ∧
  ∀ df, market_cap hist_ticker = Ok df →
    (pd.df_columns df).*1 ≡ₚ hist_ticker.*1 ∧
    Forall (λ c, length c.2 = length (pd.df_index df)) (pd.df_columns df) ∧
    pd.df_index df = ts ∧
    ∀ c vals, assoc c hist_ticker = Some vals →
      (length vals = length first ∧
       ∀ i, value_at df c i = snd <$> vals !! i) ∨
      (∃ v, vals = [v] ∧
            ∀ i, (i < length first)%nat → value_at df c i = Some v.2).
Proof.
  intros first ts. unfold market_cap, pd.from_dict. fold first.
  destruct (mapM_to_datetime (λ t : Z * float, (t.1 * 1000000)%Z) first)
    as [Hfits Hts].
  set (r := (λ kv : string * list (Z * float), (kv.1, snd <$> kv.2))
              <$> hist_ticker).
  destruct (pd.mapM _ first) as [ts'|e] eqn:Hfirst.
  2:{ split; [|done]. split; [done|]. intros [Hall _].
      by apply Hfits in Hall. }
  rewrite (Hts ts' eq_refl). fold ts.
  assert (length ts = length first) as Hlen_ts by apply length_fmap.
  split.
  - transitivity (is_ok (pd.mapM (pd.fit_column (length ts)) r) = true).
    { by destruct (pd.mapM _ r). }
    rewrite mapM_is_ok. unfold r. rewrite Forall_fmap.
    split.
    + intros Hall. split; [by apply Hfits|].
      eapply Forall_impl; [exact Hall|]. intros [k vals]. simpl.
      rewrite fit_column_is_ok. simpl. by rewrite length_fmap, Hlen_ts.
    + intros [_ Hall]. eapply Forall_impl; [exact Hall|]. intros [k vals].
      simpl. rewrite fit_column_is_ok. simpl. by rewrite length_fmap, Hlen_ts.
  - intros df. destruct (pd.mapM _ r) as [cols|e] eqn:Hm; [|done].
    intros [= <-]. simpl. apply mapM_Forall2 in Hm.
    assert (Forall2 (λ kv c : string * list float,
                       c.1 = kv.1 ∧
                       (length c.2 = length ts ∧
                        ((length kv.2 = length ts ∧ c.2 = kv.2) ∨
                         (∃ v, kv.2 = [v] ∧ c.2 = replicate (length ts) v))))
                    r cols) as Hcols.
    { eapply Forall2_impl; [exact Hm|]. intros kv c Hc.
      by apply fit_column_Ok in Hc as (? & ? & ?). }
    split; [|split; [|split; [done|]]].
    + assert (cols.*1 = r.*1) as ->.
      { clear Hm. induction Hcols as [|kv c r' cols' [Hk _] _ IH]; [done|].
        rewrite !fmap_cons. by rewrite Hk, IH. }
      unfold r. rewrite <- list_fmap_compose.
      by rewrite (list_fmap_ext _ fst hist_ticker).
    + clear Hm. induction Hcols as [|kv c r' cols' (_ & Hlen & _) _ IH];
        constructor; done.
    + intros c vals Hc. rewrite <- Hlen_ts.
      assert (assoc c r = Some (snd <$> vals)) as Hr.
      { unfold r. by rewrite (assoc_fmap_snd (fmap snd)), Hc. }
      destruct (assoc_Forall2
                  (λ v v' : list float,
                     length v' = length ts ∧
                     ((length v = length ts ∧ v' = v) ∨
                      (∃ x, v = [x] ∧ v' = replicate (length ts) x)))
                  _ _ _ _ Hcols Hr)
        as (vs & Hvs & _ & [[Hlen ->]|(v & Hv & ->)]).
      * left. rewrite length_fmap in Hlen. split; [done|].
        intros i. unfold value_at. simpl. rewrite Hvs.
        by rewrite list_lookup_fmap.
      * right. destruct vals as [|v0 [|v1 vals]]; try done.
        injection Hv as <-. exists v0. split; [done|].
        intros i Hi. unfold value_at. simpl. rewrite Hvs.
        by apply lookup_replicate_2.
Qed.

(** The response of [feed], and one whose second field has a single
    sample. *)
Example market_cap_of_feed :
  market_cap feed.bitcoin_json = Ok feed.reference ∧
  market_cap [("a", [(0%Z, 1%float); (1000%Z, 2%float)]);
              ("b", [(0%Z, 5%float)])]
  = Ok (pd.Frame [0; 1000000000]%Z
          [("a", [1; 2]%float); ("b", [5; 5]%float)]).
Proof. vm_compute. done. Qed.

Lemma has_label_assoc {A} c (kvs : list (string * A)) :
  pd.has_label kvs.*1 c
  = match assoc c kvs with Some _ => true | None => false end.
Proof.
  unfold pd.has_label. induction kvs as [|[k v] rest IH]; simpl; [done|].
  destruct (String.eqb c k); [done|]. apply IH.
Qed.

(** X9. [marshall] returns exactly when the frame has the four columns
    [price_usd], [price_btc], [volume_usd] and
    [market_cap_by_available_supply], whatever the key to rename; it then
    keeps the index it was given.  When one of the three columns it reads
    is missing it raises [KeyError] for the first of them that is. *)
Theorem marshall_needs_four_columns hist key :
  (is_ok (marshall hist key) = true ↔
   Forall (λ c, is_Some (assoc c (pd.df_columns hist))) marshall_needs) ∧
  (∀ out, marshall hist key = Ok out →
          pd.df_index out = pd.df_index hist) ∧
  (∀ c, List.find (λ c, negb (pd.has_label (pd.df_columns hist).*1 c))
                  ["price_usd"; "price_btc"; "volume_usd"] = Some c →
        marshall hist key = Raise (KeyError c)).
Proof.
  unfold marshall, marshall_needs, pd.column. simpl.
  rewrite !has_label_assoc, !Forall_cons.
  destruct (assoc "price_usd" (pd.df_columns hist)) as [pu|] eqn:Hpu.
  2:{ split; [|split]; [|done|by intros c [= <-]].
      split; [done|]. by intros [[? [=]] _]. }
  destruct (assoc "price_btc" (pd.df_columns hist)) as [pb|] eqn:Hpb.
  2:{ split; [|split]; [|done|by intros c [= <-]].
      split; [done|]. by intros (_ & [? [=]] & _). }
  destruct (assoc "volume_usd" (pd.df_columns hist)) as [vu|] eqn:Hvu.
  2:{ split; [|split]; [|done|by intros c [= <-]].
      split; [done|]. by intros (_ & _ & [? [=]] & _). }
  simpl. unfold pd.drop, pd.set_column. simpl. rewrite !has_label_assoc.
  rewrite !assoc_set_other by done. rewrite Hvu.
  destruct (assoc "market_cap_by_available_supply" (pd.df_columns hist));
    simpl.
  - split; [|split]; [|by intros out [= <-]|done].
    split; [|done]. intros _. repeat (split; [by eexists|]). constructor.
  - split; [|split]; [|done|done].
    split; [done|]. by intros (_ & _ & _ & [? [=]] & _).
Qed.

(** X10. With its default key, [marshall(hist_df)] renames [price_btc]:
    every row keeps its [price_usd] unchanged, has no [price_btc] any more,
    carries the original [price_btc] as [weightedAverage] (when the frame
    had no such column before), and the same [volume] as with any other
    key. *)
Theorem marshall_default_key hist out i row :
  Forall (λ c, length c.2 = length (pd.df_index hist)) (pd.df_columns hist) →
  marshall hist "price_btc" = Ok out →
  pd.iterrows out !! i = Some row →
  ∃ price_usd price_btc volume_usd,
    value_at hist "price_usd" i = Some price_usd ∧
    value_at hist "price_btc" i = Some price_btc ∧
    value_at hist "volume_usd" i = Some volume_usd ∧
    pd.df_index hist !! i = Some (pd.name row) ∧
    assoc "price_usd" (pd.cells row) = Some price_usd ∧
    assoc "price_btc" (pd.cells row) = None ∧
    assoc "volume" (pd.cells row)
      = Some (volume_usd / (price_usd / price_btc))%float ∧
    (assoc "weightedAverage" (pd.df_columns hist) = None →
     assoc "weightedAverage" (pd.cells row) = Some price_btc).
Proof.
  intros Hwf. unfold marshall.
  destruct (pd.column hist "price_usd") as [s_pu|e] eqn:Hpu; [|done].
  destruct (pd.column hist "price_btc") as [s_pb|e] eqn:Hpb; [|done].
  destruct (pd.column hist "volume_usd") as [s_vu|e] eqn:Hvu; [|done].
  destruct (pd.drop _ _) as [dropped|e] eqn:Hdrop; [|done].
  apply drop_Ok in Hdrop. subst dropped. intros [= <-].
  apply column_Ok in Hpu as [Hpu _], Hpb as [Hpb _], Hvu as [Hvu _].
  unfold pd.iterrows. rewrite list_lookup_imap.
  simpl. destruct (pd.df_index hist !! i) as [t|] eqn:Hi; [|done].
  simpl. intros [= <-].
  assert (∀ c vs, assoc c (pd.df_columns hist) = Some vs →
                  ∃ v, vs !! i = Some v ∧ nth i vs nan = v) as Hat.
  { intros c vs Hc. apply assoc_elem_of in Hc.
    eapply Forall_forall in Hwf; [|exact Hc]. simpl in Hwf.
    destruct (lookup_lt_is_Some_2 vs i) as [v Hv].
    { rewrite Hwf. by eapply lookup_lt_Some. }
    exists v. split; [done|]. by apply nth_lookup_Some. }
  destruct (Hat _ _ Hpu) as (pu & Hpu_i & Hpu_n).
  destruct (Hat _ _ Hpb) as (pb & Hpb_i & Hpb_n).
  destruct (Hat _ _ Hvu) as (vu & Hvu_i & Hvu_n).
  exists pu, pb, vu. unfold value_at. rewrite Hpu, Hpb, Hvu.
  split; [done|]. split; [done|]. split; [done|]. split; [done|].
  rewrite !assoc_row_at.
  unfold pd.rename. cbn [pd.df_columns pd.df_index].
  split; [|split; [|split]].
  - rewrite assoc_rename_other by done.
    rewrite assoc_filter_kept by done.
    unfold pd.set_column. cbn [pd.df_columns].
    rewrite assoc_set_other by done. rewrite Hpu. simpl. by rewrite Hpu_n.
  - by rewrite assoc_rename_old.
  - rewrite assoc_rename_other by done.
    rewrite assoc_filter_kept by done.
    unfold pd.set_column. cbn [pd.df_columns]. rewrite assoc_set_same.
    cbn [fmap option_fmap option_map pd.series_div pd.s_values].
    f_equal. apply nth_lookup_Some.
    rewrite lookup_zip_with, Hvu_i. simpl.
    by rewrite lookup_zip_with, Hpu_i, Hpb_i.
  - intros Hnone. rewrite assoc_rename_new.
    + rewrite assoc_filter_kept by done.
      unfold pd.set_column. cbn [pd.df_columns].
      rewrite assoc_set_other by done. rewrite Hpb. simpl. by rewrite Hpb_n.
    + rewrite assoc_filter_kept by done.
      unfold pd.set_column. cbn [pd.df_columns].
      by rewrite assoc_set_other.
Qed.

Lemma marshall_default_key_witness :
  ∃ price_usd price_btc volume_usd,
    value_at feed.reference "price_usd" 1 = Some price_usd ∧
    value_at feed.reference "price_btc" 1 = Some price_btc ∧
    value_at feed.reference "volume_usd" 1 = Some volume_usd ∧
    pd.df_index feed.reference !! 1%nat = Some 1500000900000000000%Z ∧
    Some 2600%float = Some price_usd ∧
    @None float = None ∧
    Some 500000%float = Some (volume_usd / (price_usd / price_btc))%float ∧
    (assoc "weightedAverage" (pd.df_columns feed.reference) = None →
     Some 1%float = Some price_btc).
Proof.
  exact (marshall_default_key feed.reference
           (pd.Frame (pd.df_index feed.reference)
              [("weightedAverage", [1; 1]%float);
               ("price_usd", [2500; 2600]%float);
               ("volume", [400000; 500000]%float)])
           1
           (pd.MkRow 1500000900000000000
              [("weightedAverage", 1%float); ("price_usd", 2600%float);
               ("volume", 500000%float)])
           ltac:(repeat constructor) eq_refl eq_refl).
Defined.

(** ** [historical_prices_of] and [contemporary_usd_price]: order and time *)

Lemma iterrows_names df : pd.name <$> pd.iterrows df = pd.df_index df.
Proof.
  unfold pd.iterrows. apply list_eq. intros i.
  rewrite list_lookup_fmap, list_lookup_imap.
  by destruct (pd.df_index df !! i).
Qed.

Section candles_more.
Context `{!Upstream}.

(** X11. What [historical_prices_of] yields for a pair is tagged with that
    pair and the series [scrapedChart], and comes in the order of the
    candles: the times of the points are the [date]s of the fetched candles
    read by [fromtimestamp] and written by [format_time], to the second,
    some of them left out, none added, none moved. *)
Theorem historical_prices_in_candle_order hist pair period start end_
    raw dates charts :
  returnChartData pair period start end_ = Ok raw →
  pd.column raw "date" = Ok dates →
  historical_prices_of hist pair period start end_ = Ok charts →
  Forall (λ chart, measurement chart = "scrapedChart" ∧
                   currencyPair chart = pair) charts ∧
  (chart_time <$> charts)
    `sublist_of` (format_time ∘ fromtimestamp <$> pd.s_values dates).
Proof.
  intros Hfetch Hd. unfold historical_prices_of. rewrite Hfetch, Hd.
  destruct (pd.drop _ _) as [ts_df|e] eqn:Hdrop; [|done].
  apply drop_Ok in Hdrop. simpl in Hdrop.
  unfold pd.apply_rows.
  destruct (pd.mapM _ (pd.iterrows ts_df)) as [prices|e] eqn:Hm; [|done].
  intros Hemit. apply emit_charts_filter in Hemit. subst charts. split.
  - apply Forall_fmap, Forall_forall. by intros row _.
  - rewrite <- list_fmap_compose.
    change (chart_time ∘ scraped_chart pair) with (format_time ∘ pd.name).
    etrans; [apply fmap_sublist, sublist_filter|].
    rewrite (list_fmap_compose pd.name format_time), iterrows_names.
    unfold pd.set_column. simpl. rewrite Hdrop. simpl.
    by rewrite <- list_fmap_compose.
Qed.

End candles_more.

Lemma historical_prices_in_candle_order_witness :
  [1500000000000000000; 1500000900000000000]%Z
  `sublist_of` (format_time ∘ @fromtimestamp feed.healthy
                  <$> [1500000000; 1500000450; 1500000900]%float).
Proof.
  exact (proj2 (@historical_prices_in_candle_order feed.healthy feed.reference
                  "BTC_ETH" 900 1499999100%float 1500001800%float feed.candles
                  (pd.MkSeries (pd.df_index feed.candles)
                     [1500000000; 1500000450; 1500000900]%float)
                  [MkChart "scrapedChart" "BTC_ETH" 1500000000000000000
                     [("close", 0.0625%float); ("volume", 12%float);
                      ("weightedAverage", 0.0625%float);
                      ("price_usd", 156.25%float)];
                   MkChart "scrapedChart" "BTC_ETH" 1500000900000000000
                     [("close", 0.125%float); ("volume", 7.5%float);
                      ("weightedAverage", 0.125%float);
                      ("price_usd", 325%float)]]
                  eq_refl eq_refl ltac:(vm_compute; reflexivity))).
Defined.

(** X12. The reference price is a step function of the candle's time: two
    candles with the same fields, the earlier at [T1] and the later at
    [T2], get the same [price_usd] (or fail alike) when no sample of the
    reference series has its time after [T1] and at or before [T2]. *)
Theorem contemporary_price_constant_between_samples btc_price_hist fs T1 T2 :
  (T1 ≤ T2)%Z →
  Forall (λ t, ¬ (T1 < t ≤ T2)%Z) (pd.df_index btc_price_hist) →
  contemporary_usd_price btc_price_hist (pd.MkRow T1 fs)
  = contemporary_usd_price btc_price_hist (pd.MkRow T2 fs).
Proof.
  intros Hle Hgap. unfold contemporary_usd_price, pd.column.
  destruct (assoc "price_usd" (pd.df_columns btc_price_hist)) as [vs|]; [|done].
  simpl. assert (pd.asof (pd.MkSeries (pd.df_index btc_price_hist) vs) T1
                 = pd.asof (pd.MkSeries (pd.df_index btc_price_hist) vs) T2)
    as ->; [|done].
  unfold pd.asof, pd.searchsorted_right. simpl.
  destruct (pd.is_monotonic_increasing (pd.df_index btc_price_hist)); [|done].
  simpl.
  assert (List.filter (λ t, (t <=? T1)%Z) (pd.df_index btc_price_hist)
          = List.filter (λ t, (t <=? T2)%Z) (pd.df_index btc_price_hist)) as ->.
  { induction Hgap as [|t rest Ht _ IH]; simpl; [done|]. rewrite IH.
    destruct (Z.leb_spec t T1), (Z.leb_spec t T2); try done; lia. }
  destruct (pd.df_index btc_price_hist) as [|start rest]; [done|].
  apply Forall_cons in Hgap as [Hs _].
  by destruct (Z.ltb_spec T1 start), (Z.ltb_spec T2 start); try done; lia.
Qed.

Lemma contemporary_price_constant_between_samples_witness :
  contemporary_usd_price feed.reference
    (pd.MkRow 1500000000000000000 [("weightedAverage", 0.125%float)])
  = contemporary_usd_price feed.reference
      (pd.MkRow 1500000899999999999 [("weightedAverage", 0.125%float)]).
Proof.
  apply contemporary_price_constant_between_samples; [lia|].
  repeat constructor; simpl; lia.
Defined.

(** ** [scrape_since_last_reading]: where the window starts *)

Lemma foldl_newest_max (p : Chart) (ps : list Chart) :
  let best := foldl (λ best q,
                       if (chart_time best <? chart_time q)%Z then q else best)
                    p ps in
  (best = p ∨ best ∈ ps) ∧
  (chart_time p ≤ chart_time best)%Z ∧
  Forall (λ q, (chart_time q ≤ chart_time best)%Z) ps.
Proof.
  revert p. induction ps as [|q ps IH]; intros p; simpl.
  - split; [by left|]. split; [lia|constructor].
  - destruct (Z.ltb_spec (chart_time p) (chart_time q)) as [Hlt|Hge].
    + destruct (IH q) as (Hin & Hq & Hall). split; [|split].
      * right. destruct Hin as [->|Hin]; [by left|by right].
      * lia.
      * by constructor.
    + destruct (IH p) as (Hin & Hp & Hall). split; [|split].
      * destruct Hin as [->|Hin]; [by left|right; by right].
      * done.
      * constructor; [lia|done].
Qed.

(** X13. On a store that holds points of the series [scrapedChart], the
    query for the latest reading returns one of them, and none of them, of
    whatever pair and wherever in the store, is later: the window of the
    run starts at the newest time stored in that series.  Points of other
    series are not looked at. *)
Theorem query_latest_is_newest st :
  (∃ q, q ∈ points st ∧ measurement q = "scrapedChart") →
  ∃ p, query_latest st = (st, Ok [p]) ∧
       p ∈ points st ∧ measurement p = "scrapedChart" ∧
       ∀ q, q ∈ points st → measurement q = "scrapedChart" →
            (chart_time q ≤ chart_time p)%Z.
Proof.
  intros (q0 & Hq0 & Hm0). unfold query_latest.
  set (series := List.filter _ (points st)).
  assert (∀ q, q ∈ series ↔ q ∈ points st ∧ measurement q = "scrapedChart")
    as Hseries.
  { intros q. unfold series. rewrite !list_elem_of_In, filter_In.
    by rewrite String.eqb_eq. }
  destruct series as [|p ps] eqn:Hs.
  { exfalso. eapply not_elem_of_nil. apply Hseries. eauto. }
  destruct (foldl_newest_max p ps) as (Hin & Hp & Hall).
  eexists. split; [done|].
  set (best := foldl _ p ps) in *.
  assert (best ∈ p :: ps) as Hbest.
  { destruct Hin as [->|Hin]; [by left|by right]. }
  apply Hseries in Hbest as [Hbest Hm]. split; [done|]. split; [done|].
  intros q Hq Hqm.
  assert (q ∈ p :: ps) as [->|Hqs]%elem_of_cons by (by apply Hseries).
  - done.
  - eapply Forall_forall in Hall; [exact Hall|done].
Qed.

(** The store of [feed] with a later point of another series beside it:
    the query returns the point of [scrapedChart]. *)
Lemma query_latest_is_newest_witness :
  ∃ p, query_latest
         (Store (MkChart "otherSeries" "BTC_ETH" 1500000000000000000 []
                   :: points feed.warm) [])
       = (Store (MkChart "otherSeries" "BTC_ETH" 1500000000000000000 []
                   :: points feed.warm) [], Ok [p]) ∧
       measurement p = "scrapedChart".
Proof.
  destruct (query_latest_is_newest
              (Store (MkChart "otherSeries" "BTC_ETH" 1500000000000000000 []
                        :: points feed.warm) []))
    as (p & Hq & _ & Hm & _).
  - eexists. split; [right; left|]; reflexivity.
  - by exists p.
Defined.

(** A second run over the same candles writes under the keys of the first:
    the store holds the same points, none of them twice. *)
Example rerun_rewrites_points :
  let once := (@scrape_since_last_reading feed.healthy feed.warm).1 in
  let twice := (@scrape_since_last_reading feed.healthy once).1 in
  length (points once) = 7%nat ∧ points twice = points once.
Proof. vm_compute. done. Qed.

(** ** [MarketHistory.latest]: no reading from the future *)

Lemma keep_newest_fold ps : ∀ (m : gmap string Chart) k,
  match foldl keep_newest m ps !! k with
  | Some p =>
      (m !! k = Some p ∨ (p ∈ ps ∧ currencyPair p = k)) ∧
      (∀ q, m !! k = Some q → (chart_time q ≤ chart_time p)%Z) ∧
      (∀ q, q ∈ ps → currencyPair q = k → (chart_time q ≤ chart_time p)%Z)
  | None => m !! k = None ∧ ∀ q, q ∈ ps → currencyPair q ≠ k
  end.
Proof.
  induction ps as [|p0 rest IH]; intros m k; simpl.
  - destruct (m !! k) as [p|] eqn:Hk.
    + split; [by left|]. split; [intros q [= <-]; lia|].
      intros q Hq. by apply elem_of_nil in Hq.
    + split; [done|]. intros q Hq. by apply elem_of_nil in Hq.
  - specialize (IH (keep_newest m p0) k).
    assert (keep_newest m p0 !! k
            = if decide (currencyPair p0 = k)
              then match m !! k with
                   | Some q => if (chart_time p0 <? chart_time q)%Z
                               then Some q else Some p0
                   | None => Some p0
                   end
              else m !! k) as Hstep.
    { unfold keep_newest. destruct (decide (currencyPair p0 = k)) as [<-|Hne].
      - destruct (m !! currencyPair p0) as [q|] eqn:Hq.
        + destruct (chart_time p0 <? chart_time q)%Z; [done|].
          by rewrite lookup_insert_eq.
        + by rewrite lookup_insert_eq.
      - destruct (m !! currencyPair p0) as [q|].
        + destruct (chart_time p0 <? chart_time q)%Z; [done|].
          by rewrite lookup_insert_ne.
        + by rewrite lookup_insert_ne. }
    rewrite Hstep in IH. clear Hstep.
    destruct (foldl keep_newest (keep_newest m p0) rest !! k) as [p|].
    + destruct IH as (Hin & Hold & Hnew).
      destruct (decide (currencyPair p0 = k)) as [Hk|Hk].
      * destruct (m !! k) as [q|] eqn:Hq.
        -- destruct (Z.ltb_spec (chart_time p0) (chart_time q)) as [Hlt|Hge].
           ++ pose proof (Hold q eq_refl). split; [|split].
              ** destruct Hin as [Hin|[Hin Hp]]; [by left|].
                 right. split; [by right|done].
              ** intros q' [= <-]. done.
              ** intros q' [->|Hq']%elem_of_cons Hpair; [lia|by apply Hnew].
           ++ pose proof (Hold p0 eq_refl). split; [|split].
              ** right. destruct Hin as [[= <-]|[Hin Hp]];
                   [split; [by left|done]|split; [by right|done]].
              ** intros q' [= <-]. lia.
              ** intros q' [->|Hq']%elem_of_cons Hpair; [lia|by apply Hnew].
        -- pose proof (Hold p0 eq_refl). split; [|split].
           ++ right. destruct Hin as [[= <-]|[Hin Hp]];
                [split; [by left|done]|split; [by right|done]].
           ++ done.
           ++ intros q' [->|Hq']%elem_of_cons Hpair; [lia|by apply Hnew].
      * split; [|split].
        -- destruct Hin as [Hin|[Hin Hp]]; [by left|].
           right. split; [by right|done].
        -- done.
        -- intros q' [->|Hq']%elem_of_cons Hpair; [done|by apply Hnew].
    + destruct IH as [Hnone Hrest].
      destruct (decide (currencyPair p0 = k)) as [Hk|Hk].
      * destruct (m !! k) as [q|]; [|done].
        by destruct (chart_time p0 <? chart_time q)%Z.
      * split; [done|]. intros q' [->|Hq']%elem_of_cons; [done|by apply Hrest].
Qed.

Lemma in_last_day_spec T p :
  in_last_day T p = true ↔
  measurement p = "scrapedChart" ∧ (T - DAY < chart_time p ≤ T)%Z.
Proof.
  unfold in_last_day. rewrite !andb_true_iff, String.eqb_eq, Z.leb_le, Z.ltb_lt.
  tauto.
Qed.

(** X16. What [latest(time)] returns under a pair is a point of that pair
    from the store, no later than [time] and less than a day before it, and
    no point of that pair in the store that is at or before [time] is newer
    than it: a strategy asking for the readings at [time] is never shown a
    reading from after [time]. *)
Theorem latest_is_newest_up_to_time T st pair p :
  latest T st !! pair = Some p →
  p ∈ points st ∧ currencyPair p = pair ∧
  measurement p = "scrapedChart" ∧
  (T - DAY < chart_time p ≤ T)%Z ∧
  ∀ q, q ∈ points st → measurement q = "scrapedChart" →
       currencyPair q = pair → (chart_time q ≤ T)%Z →
       (chart_time q ≤ chart_time p)%Z.
Proof.
  unfold latest, newest_per_pair. intros Hp.
  pose proof (keep_newest_fold (List.filter (in_last_day T) (points st)) ∅ pair)
    as Hfold. rewrite Hp in Hfold.
  destruct Hfold as ([Hin|[Hin Hpair]] & _ & Hnew);
    [by rewrite lookup_empty in Hin|].
  apply list_elem_of_In, filter_In in Hin as [Hin Hwin].
  apply in_last_day_spec in Hwin as [Hm Ht].
  split; [by apply list_elem_of_In|]. split; [done|]. split; [done|].
  split; [done|]. intros q Hq Hqm Hqp HqT.
  destruct (Z.lt_ge_cases (T - DAY) (chart_time q)) as [Hlate|Hearly]; [|lia].
  apply Hnew; [|done]. apply list_elem_of_In, filter_In.
  split; [by apply list_elem_of_In|]. by apply in_last_day_spec.
Qed.

(** X17. A pair is missing from what [latest(time)] returns exactly when
    the store has no point of it in the day up to [time]; pairs without a
    reading in that day are left out, which is no error, and every pair
    with one is there. *)
Theorem latest_leaves_out_silent_pairs T st pair :
  latest T st !! pair = None ↔
  ∀ q, q ∈ points st → currencyPair q = pair →
       measurement q = "scrapedChart" → ¬ (T - DAY < chart_time q ≤ T)%Z.
Proof.
  unfold latest, newest_per_pair.
  pose proof (keep_newest_fold (List.filter (in_last_day T) (points st)) ∅ pair)
    as Hfold. split.
  - intros Hnone. rewrite Hnone in Hfold. destruct Hfold as [_ Hno].
    intros q Hq Hpair Hm Ht. apply (Hno q); [|done].
    apply list_elem_of_In, filter_In. split; [by apply list_elem_of_In|].
    by apply in_last_day_spec.
  - intros Hno.
    destruct (foldl keep_newest ∅ _ !! pair) as [p|]; [|done]. exfalso.
    destruct Hfold as ([Hin|[Hin Hpair]] & _ & _);
      [by rewrite lookup_empty in Hin|].
    apply list_elem_of_In, filter_In in Hin as [Hin Hwin].
    apply in_last_day_spec in Hwin as [Hm Ht].
    apply (Hno p); [by apply list_elem_of_In|done..].
Qed.

Lemma latest_is_newest_up_to_time_witness :
  ∃ p, latest 1499999200000000000 feed.warm !! "BTC_ETH" = Some p ∧
       (1499999200000000000 - DAY < chart_time p ≤ 1499999200000000000)%Z.
Proof.
  eexists. split; [vm_compute; reflexivity|].
  exact (proj1 (proj2 (proj2 (proj2
    (latest_is_newest_up_to_time 1499999200000000000 feed.warm "BTC_ETH" _
       ltac:(vm_compute; reflexivity)))))).
Defined.

(** ** [deepcopy] in [Fund.step]: when it returns *)





Section copier_total.
Variable h0 : gmap loc obj.
Variable P : gset loc.
Variable frames : nat.
Variable rec : val → copy_st → copy_st * result val.
Hypothesis rec_copying : ∀ x st st' v,
  rec x st = (st', Ok v) → val_in (dom h0) x → copying h0 P st →
  copying h0 P st' ∧ st.1 ⊆ st'.1 ∧
  (∀ l, l ∈ dom st.2 → st'.2 !! l = st.2 !! l) ∧
  val_rel st'.1 x v.
Hypothesis rec_total : ∀ x st,
  val_in (dom h0) x → copying h0 P st →
  2 * size (dom h0 ∖ dom st.1) + 2 ≤ frames →
  ∃ st' v, rec x st = (st', Ok v).



End copier_total.

Section deepcopy_total.
Variable h0 : gmap loc obj.
Hypothesis h0_closed : heap_closed h0.
Hypothesis h0_dicts : dicts_wf h0.



End deepcopy_total.

Section step_reaches.
Context `{!Runtime, !MarketAdapter, !Strategy}.


End step_reaches.


(** The copier runs out of frames at about half the depth the recursion
    limit counts: with 100 frames left, 40 lists nested in one another are
    copied and 60 are refused. *)
Example deepcopy_frames_per_level :
  let nested (n : nat) : gmap loc obj :=
    foldr (λ i h, <[Pos.of_nat i := OList [VRef (Pos.of_nat (S i))]]> h)
          (<[Pos.of_nat n := OList []]> ∅) (seq 1 (n - 1)) in
  is_ok (deepcopy 100 (VRef 1) (nested 40)).2 = true ∧
  (deepcopy 100 (VRef 1) (nested 60)).2 = Raise RecursionError.
Proof. vm_compute. done. Qed.
